(** * Realtime chat relay: session fan-out, push delivery, subscription registry

    A shallow embedding of the push-enabled server (the variant with
    [web-push]): the [POST /api/save-subscription] route and the socket
    handlers [joinSession] and [chatMessage].

    Handlers are written in a small monad that threads the world (the
    collections of the store and the rooms of the socket server), may throw,
    and records the calls made to the outside (console, sockets, store, push
    transport) in program order.  Whether an asynchronous call to a
    collaborator resolves or rejects is decided by an environment [Env]. *)

From Stdlib Require Import ZArith Ascii.
From stdpp Require Import gmap strings list sorting pretty.

Local Open Scope string_scope.
Local Open Scope list_scope.
Local Open Scope stdpp_scope.

(** ** JavaScript strings

    A JavaScript string is a sequence of UTF-16 code units: [length],
    [slice] and [startsWith] count and compare code units, and a character
    outside the Basic Multilingual Plane takes two of them.  A code unit is
    a number below 65536; the handlers never compute with one, so the bound
    is not carried. *)
Definition code_unit := N.
#[warnings="-notation-for-abbreviation"]
Notation JsString := (list code_unit).

(** The string of a literal of the source: the literals are ASCII, one code
    unit for each character. *)
Definition js (s : string) : JsString := N_of_ascii <$> String.list_ascii_of_string s.
Coercion js : string >-> list.
Arguments js : simpl never.

(** [s.slice(b, e)] for indices [0 <= b] and [0 <= e]: the code units from
    position [b] up to, not including, position [e], clamped to the string. *)
Definition slice (b e : nat) (s : JsString) : JsString :=
  take (e - b) (drop b s).

(** [s.startsWith(p)]. *)
Fixpoint startsWith (p s : JsString) : bool :=
  match p, s with
  | [], _ => true
  | a :: p', b :: s' => (a =? b)%N && startsWith p' s'
  | _ :: _, [] => false
  end.

(** [s || d] on strings: the empty string is falsy. *)
Definition or_else (s d : JsString) : JsString :=
  match s with
  | [] => d
  | _ => s
  end.

(** [!x] for a value that is a string or [undefined]. *)
Definition falsy_string (x : option JsString) : bool :=
  match x with
  | None => true
  | Some s => if decide (s = []) then true else false
  end.

(** [!x] for a value that is an object or [undefined]: an object, even an
    empty one, is truthy. *)
Definition falsy_object {A} (x : option A) : bool :=
  match x with
  | None => true
  | Some _ => false
  end.

(** ** Data model *)

(** A socket is identified by its id. *)
Definition conn := string.

(** The five fields the [chatMessage] handler destructures from the inbound
    event.  [messageSchema] types each of them as [String]; on a string
    [x?.f(..)] is the plain call [x.f(..)]. *)
Record MessageData := mkMessageData {
  sessionId : JsString;
  sender    : JsString;
  text      : JsString;
  fileUrl   : JsString;
  fileType  : JsString
}.

(** A document of the Message collection: the five fields and the
    [createdAt] the schema fills in with [Date.now]. *)
Record Message := mkMessage {
  data      : MessageData;
  createdAt : Z
}.

(** [keys] of a PushSubscription as the client sent it: either member may
    be missing. *)
Record Keys := mkKeys {
  p256dh : option JsString;
  auth   : option JsString
}.

(** The body of a registration request.  [None] is an absent (undefined)
    field. *)
Record SubscriptionBody := mkBody {
  body_endpoint  : option JsString;
  body_keys      : option Keys;
  body_sessionId : option JsString
}.

(** A document of the Subscription collection, as written by the update
    [{ endpoint: sub.endpoint, keys: sub.keys, sessionId }]. *)
Record Subscription := mkSubscription {
  endpoint      : JsString;
  keys          : Keys;
  sub_sessionId : option JsString
}.

#[global] Instance MessageData_eq_dec : EqDecision MessageData.
Proof. solve_decision. Defined.
#[global] Instance Keys_eq_dec : EqDecision Keys.
Proof. solve_decision. Defined.
#[global] Instance Subscription_eq_dec : EqDecision Subscription.
Proof. solve_decision. Defined.

(** An object literal whose values are strings or [undefined]; the order of
    the members is the order of the literal. *)
Definition JsObject := list (string * option JsString).

(** [JSON.stringify] of such an object, represented by the members of the
    JSON text: a member whose value is [undefined] is left out. *)
Definition JSON_stringify (o : JsObject) : list (string * JsString) :=
  omap (λ kv, match kv.2 with Some v => Some (kv.1, v) | None => None end) o.

(** Value of member [k] of a serialized object, if present. *)
Fixpoint member (k : string) (o : list (string * JsString)) : option JsString :=
  match o with
  | [] => None
  | (k', v) :: o' => if decide (k' = k) then Some v else member k o'
  end.

(** ** The environment and the effect monad *)

(** What a rejected promise carries.  [statusCode] is the field the push
    error branch reads; errors that are not HTTP responses have none. *)
Record JsError := mkError {
  statusCode : option Z;
  message    : JsString
}.

Inductive Settled :=
| Resolves
| Rejects (err : JsError).

(** How each call to a collaborator settles during one handler run. *)
Record Env := mkEnv {
  Date_now                      : Z;
  Message_save_settles          : Settled;
  Subscription_find_settles     : Settled;
  Subscription_update_settles   : Settled;
  Subscription_deleteOne_settles : JsString → Settled;
  sendNotification_settles      : Subscription → Settled
}.

(** The mutable world: the two collections of the store the handlers touch
    and the rooms of the socket server. *)
Record World := mkWorld {
  messages      : list Message;
  subscriptions : list Subscription;
  rooms         : gmap JsString (gset conn)
}.

(** Calls to the outside, in the order they are issued. *)
Inductive Effect :=
| ConsoleLog (msg : JsString)
| ConsoleError (msg : JsString)
| MessageSave (m : MessageData)
| SocketEmit (room : JsString) (event : string) (payload : list (string * JsString))
             (recipients : list conn)
| SubscriptionFind (sid : JsString)
| SubscriptionFindOneAndUpdate (filter_endpoint : JsString) (doc : Subscription)
| SubscriptionDeleteOne (filter_endpoint : JsString)
| SendNotification (sub : Subscription) (payload : list (string * JsString)).

#[global] Instance Effect_eq_dec : EqDecision Effect.
Proof. solve_decision. Defined.

Inductive Outcome (A : Type) :=
| Returned (a : A)
| Threw (err : JsError).
Arguments Returned {A} a.
Arguments Threw {A} err.

Definition M (A : Type) : Type := World → Outcome A * World * list Effect.

#[global] Instance M_ret : MRet M := λ A a w, (Returned a, w, []).

#[global] Instance M_bind : MBind M := λ A B f m w,
  match m w with
  | (Returned a, w1, t1) =>
      match f a w1 with
      | (o, w2, t2) => (o, w2, t1 ++ t2)
      end
  | (Threw err, w1, t1) => (Threw err, w1, t1)
  end.

(** [try { body } catch (err) { handler }]. *)
Definition try_catch {A} (body : M A) (handler : JsError → M A) : M A := λ w,
  match body w with
  | (Threw err, w1, t1) =>
      match handler err w1 with
      | (o, w2, t2) => (o, w2, t1 ++ t2)
      end
  | r => r
  end.

(** [l.forEach(f)], collecting what the callbacks return. *)
Fixpoint forEach {A B} (l : list A) (f : A → M B) : M (list B) :=
  match l with
  | [] => mret []
  | x :: l' => y ← f x; ys ← forEach l' f; mret (y :: ys)
  end.

Definition outcome_of {A} (r : Outcome A * World * list Effect) : Outcome A := r.1.1.
Definition world_of {A} (r : Outcome A * World * list Effect) : World := r.1.2.
Definition trace_of {A} (r : Outcome A * World * list Effect) : list Effect := r.2.

Definition console_log (msg : JsString) : M unit :=
  λ w, (Returned tt, w, [ConsoleLog msg]).

Definition console_error (msg : JsString) : M unit :=
  λ w, (Returned tt, w, [ConsoleError msg]).

(** ** The persistence store

    The models are mongoose models; what their operations do is not under
    src/.  The collection is the list of its documents in insertion order. *)

(** Modelled from the spec: [Subscription.find({ sessionId })], missing from
    src/.  Section 6: "query(sessionId) -> Subscription[]", the documents
    recorded for the session. *)
Definition find_by_session (sid : JsString) (l : list Subscription) : list Subscription :=
  filter (λ s, sub_sessionId s = Some sid) l.

(** Modelled from the spec: [Subscription.deleteOne({ endpoint })], missing
    from src/.  Section 6: "delete(Subscription by endpoint)"; one document
    is removed, the first with that endpoint. *)
Fixpoint delete_one (e : JsString) (l : list Subscription) : list Subscription :=
  match l with
  | [] => []
  | s :: l' => if decide (endpoint s = e) then l' else s :: delete_one e l'
  end.

(** Modelled from the spec: [Subscription.findOneAndUpdate({ endpoint }, doc,
    { upsert: true })], missing from src/.  Section 3: "Created/updated
    (upsert keyed by endpoint)", a re-registration "replaces its prior
    keys/sessionId binding": the first document with that endpoint takes the
    fields of [doc]; without one, [doc] is inserted. *)
Fixpoint find_one_and_update (e : JsString) (doc : Subscription)
    (l : list Subscription) : list Subscription :=
  match l with
  | [] => [doc]
  | s :: l' =>
      if decide (endpoint s = e) then doc :: l'
      else s :: find_one_and_update e doc l'
  end.

(** The unique index on [endpoint] declared by [subscriptionSchema]. *)
Definition unique_endpoints (l : list Subscription) : Prop :=
  NoDup (endpoint <$> l).

(** ** The rooms of the socket server

    Rooms are kept by socket.io, which is not under src/.  A room is the set
    of the ids of the sockets joined to it. *)

(** The sockets joined to [room]. *)
Definition room_members (room : JsString) (r : gmap JsString (gset conn)) : gset conn :=
  default ∅ (r !! room).

(** Modelled from the spec: [socket.join(room)], missing from src/.  Section
    4.1: join "associates the connection with the session's delivery group.
    A connection may join multiple sessions; idempotent if joined already". *)
Definition join_room (socket : conn) (room : JsString)
    (r : gmap JsString (gset conn)) : gmap JsString (gset conn) :=
  <[room := {[socket]} ∪ room_members room r]> r.

(** Modelled from the spec: what the socket server does when a socket
    disconnects, missing from src/.  Section 4.1: leave "removes the
    connection from all groups it belonged to". *)
Definition leave_all (socket : conn)
    (r : gmap JsString (gset conn)) : gmap JsString (gset conn) :=
  (λ X, X ∖ {[socket]}) <$> r.

(** ** The server *)

Inductive Response :=
| StatusJson (status : nat) (error : JsString)
| SendStatus (status : nat).

#[global] Instance Response_eq_dec : EqDecision Response.
Proof. solve_decision. Defined.

Section Server.

(** [BASE_URL] of the configuration. *)
Variable BASE_URL : JsString.
Variable env : Env.

(** [new Message(messageData).save()]. *)
Definition Message_save (m : MessageData) : M unit := λ w,
  match Message_save_settles env with
  | Resolves =>
      (Returned tt,
       mkWorld (messages w ++ [mkMessage m (Date_now env)]) (subscriptions w) (rooms w),
       [MessageSave m])
  | Rejects err => (Threw err, w, [MessageSave m])
  end.

(** [Subscription.find({ sessionId })]. *)
Definition Subscription_find (sid : JsString) : M (list Subscription) := λ w,
  match Subscription_find_settles env with
  | Resolves => (Returned (find_by_session sid (subscriptions w)), w, [SubscriptionFind sid])
  | Rejects err => (Threw err, w, [SubscriptionFind sid])
  end.

(** [Subscription.deleteOne({ endpoint })]. *)
Definition Subscription_deleteOne (e : JsString) : M unit := λ w,
  match Subscription_deleteOne_settles env e with
  | Resolves =>
      (Returned tt,
       mkWorld (messages w) (delete_one e (subscriptions w)) (rooms w),
       [SubscriptionDeleteOne e])
  | Rejects err => (Threw err, w, [SubscriptionDeleteOne e])
  end.

(** [Subscription.findOneAndUpdate({ endpoint }, doc, { upsert: true, new: true })]. *)
Definition Subscription_findOneAndUpdate (e : JsString) (doc : Subscription) : M unit := λ w,
  match Subscription_update_settles env with
  | Resolves =>
      (Returned tt,
       mkWorld (messages w) (find_one_and_update e doc (subscriptions w)) (rooms w),
       [SubscriptionFindOneAndUpdate e doc])
  | Rejects err => (Threw err, w, [SubscriptionFindOneAndUpdate e doc])
  end.

(** [socket.join(room)]. *)
Definition socket_join (socket : conn) (room : JsString) : M unit := λ w,
  (Returned tt, mkWorld (messages w) (subscriptions w) (join_room socket room (rooms w)), []).

(** Modelled from the spec: delivery of [io.to(room).emit(event, payload)],
    missing from src/.  Section 4.1: broadcast "delivers payload to every
    connection currently joined to sessionId, excluding none (including the
    sender)".  The call is made on [io], not on the handling socket. *)
Definition io_to_emit (room : JsString) (event : string)
    (payload : list (string * JsString)) : M unit := λ w,
  (Returned tt, w, [SocketEmit room event payload (elements (room_members room (rooms w)))]).

(** [webpush.sendNotification(sub, payload)]: the request is issued and a
    pending promise, named by its subscription, is returned. *)
Definition webpush_sendNotification (sub : Subscription)
    (payload : list (string * JsString)) : M Subscription := λ w,
  (Returned sub, w, [SendNotification sub payload]).

(** *** POST /api/save-subscription *)

Definition save_subscription (sub : SubscriptionBody) : M Response :=
  if falsy_string (body_endpoint sub) || falsy_object (body_keys sub) then
    mret (StatusJson 400 "Invalid subscription payload.")
  else
    match body_endpoint sub, body_keys sub with
    | Some e, Some k =>
        try_catch
          (let sessionId := body_sessionId sub in
           Subscription_findOneAndUpdate e (mkSubscription e k sessionId);;
           mret (SendStatus 201))
          (λ err,
             console_error "Saving subscription failed";;
             mret (StatusJson 500 "Failed to save subscription"))
    | _, _ => mret (StatusJson 400 "Invalid subscription payload.")
    end.

(** *** Socket handlers *)

Definition joinSession (socket : conn) (sessionId : JsString) : M unit :=
  socket_join socket sessionId;;
  console_log (js "Client joined session: " ++ sessionId).

(** The object literal [{ sessionId, sender, text, fileUrl, fileType }]. *)
Definition messageData (ev : MessageData) : list (string * JsString) :=
  [ ("sessionId", sessionId ev);
    ("sender", sender ev);
    ("text", text ev);
    ("fileUrl", fileUrl ev);
    ("fileType", fileType ev) ].

(** The notification object before serialization. *)
Definition notification (ev : MessageData) : JsObject :=
  [ ("title", Some (js "New message from " ++ sender ev));
    ("body", Some (or_else (slice 0 100 (text ev)) "Sent an attachment"));
    ("icon", if startsWith "image/" (fileType ev) then Some (fileUrl ev) else None);
    ("url", Some (BASE_URL ++ js "/chat/" ++ sessionId ev)) ].

(** [err.statusCode === 410 || err.statusCode === 404]. *)
Definition gone (err : JsError) : bool :=
  match statusCode err with
  | Some c => (c =? 410)%Z || (c =? 404)%Z
  | None => false
  end.

(** The callback given to [.catch] on the promise of one send. *)
Definition on_push_rejected (sub : Subscription) (err : JsError) : M unit :=
  if gone err then
    try_catch (Subscription_deleteOne (endpoint sub))
              (λ e, console_error (message e))
  else
    console_error "Push error:".

(** The body of the [chatMessage] handler, up to the point where every
    send has been issued.  Its result lists the sends left in flight, each
    with [on_push_rejected] attached. *)
Definition chatMessage (socket : conn) (ev : MessageData) : M (list Subscription) :=
  try_catch (Message_save ev)
            (λ error, console_error "Error saving message:");;
  io_to_emit (sessionId ev) "chatMessage" (messageData ev);;
  try_catch
    (subs ← Subscription_find (sessionId ev);
     let payload := JSON_stringify (notification ev) in
     forEach subs (λ sub, webpush_sendNotification sub payload))
    (λ err,
       console_error "Error sending push notifications:";;
       mret []).

(** One send settles: nothing happens when it resolves, the callback runs
    when it rejects. *)
Definition settle_push (sub : Subscription) : M unit :=
  match sendNotification_settles env sub with
  | Resolves => mret tt
  | Rejects err => on_push_rejected sub err
  end.

(** A [chatMessage] event handled to completion: the handler runs, then the
    sends in flight settle, here in the order they were issued (the store
    that results is the same for any other order). *)
Definition chatMessage_event (socket : conn) (ev : MessageData) : M unit :=
  inflight ← chatMessage socket ev;
  forEach inflight settle_push;;
  mret tt.

(** [disconnect]: the socket server drops the socket from its rooms, then
    the handler logs. *)
Definition disconnect (socket : conn) : M unit := λ w,
  (Returned tt, mkWorld (messages w) (subscriptions w) (leave_all socket (rooms w)),
   [ConsoleLog "Client disconnected"]).

End Server.

(** ** Observations on a run *)

(** The push sends of a trace, in order: target and payload. *)
Definition sends (t : list Effect) : list (Subscription * list (string * JsString)) :=
  omap (λ e, match e with SendNotification s p => Some (s, p) | _ => None end) t.

Definition is_emit (e : Effect) : bool :=
  match e with
  | SocketEmit _ _ _ _ => true
  | _ => false
  end.

(** The socket broadcasts of a trace, in order. *)
Definition emits (t : list Effect) : list Effect :=
  filter (λ e, is_emit e) t.

(** How many times a trace delivers to socket [c]. *)
Definition deliveries_to (c : conn) (t : list Effect) : nat :=
  sum_list (omap (λ e, match e with
                       | SocketEmit _ _ _ rs => Some (length (filter (λ x, x = c) rs))
                       | _ => None
                       end) t).

(** Calls of the push path: the subscription query, the sends, the pruning. *)
Definition push_call (e : Effect) : bool :=
  match e with
  | SubscriptionFind _ | SendNotification _ _ | SubscriptionDeleteOne _ => true
  | _ => false
  end.

(** What the persistence step leaves in the trace. *)
Definition persist_trace (env : Env) (ev : MessageData) : list Effect :=
  MessageSave ev ::
  match Message_save_settles env with
  | Resolves => []
  | Rejects _ => [ConsoleError "Error saving message:"]
  end.

Definition persist_store (env : Env) (ev : MessageData) (l : list Message) : list Message :=
  match Message_save_settles env with
  | Resolves => l ++ [mkMessage ev (Date_now env)]
  | Rejects _ => l
  end.

(** The send to [sub] was rejected as gone and the delete that follows is
    performed by the store. *)
Definition prunes (env : Env) (sub : Subscription) : bool :=
  match sendNotification_settles env sub with
  | Resolves => false
  | Rejects err =>
      gone err &&
      match Subscription_deleteOne_settles env (endpoint sub) with
      | Resolves => true
      | Rejects _ => false
      end
  end.

Definition settle_store (env : Env) (sub : Subscription)
    (l : list Subscription) : list Subscription :=
  if prunes env sub then delete_one (endpoint sub) l else l.

Definition settle_trace (env : Env) (sub : Subscription) : list Effect :=
  match sendNotification_settles env sub with
  | Resolves => []
  | Rejects err =>
      if gone err then
        SubscriptionDeleteOne (endpoint sub) ::
        match Subscription_deleteOne_settles env (endpoint sub) with
        | Resolves => []
        | Rejects e => [ConsoleError (message e)]
        end
      else [ConsoleError "Push error:"]
  end.

(** A sequence of [chatMessage] events, each handled to completion in its
    own environment. *)
Fixpoint chatMessage_events (BASE_URL : JsString)
    (evs : list (Env * conn * MessageData)) (w : World) : World * list Effect :=
  match evs with
  | [] => (w, [])
  | (env, socket, ev) :: evs' =>
      let r := chatMessage_event BASE_URL env socket ev w in
      let r' := chatMessage_events BASE_URL evs' (world_of r) in
      (r'.1, trace_of r ++ r'.2)
  end.


(** The sends of one dispatch and what their settling leaves in the trace. *)
Definition dispatch_trace (BASE_URL : JsString) (env : Env) (ev : MessageData)
    (l : list Subscription) : list Effect :=
  SubscriptionFind (sessionId ev) ::
  match Subscription_find_settles env with
  | Resolves =>
      let subs := find_by_session (sessionId ev) l in
      ((λ sub, SendNotification sub (JSON_stringify (notification BASE_URL ev))) <$> subs)
      ++ concat (settle_trace env <$> subs)
  | Rejects _ => [ConsoleError "Error sending push notifications:"]
  end.

Definition dispatch_store (env : Env) (ev : MessageData)
    (l : list Subscription) : list Subscription :=
  match Subscription_find_settles env with
  | Resolves =>
      fold_left (λ acc s, settle_store env s acc) (find_by_session (sessionId ev) l) l
  | Rejects _ => l
  end.

(** The broadcast of one event in world [w]. *)
Definition broadcast (ev : MessageData) (w : World) : Effect :=
  SocketEmit (sessionId ev) "chatMessage" (messageData ev)
             (elements (room_members (sessionId ev) (rooms w))).

(** ** A scenario

    Session "abc" has sockets A and B joined and two subscriptions, E1 and
    E2; socket C and subscription E3 belong to session "xyz". *)
Definition keys0 : Keys := mkKeys (Some (js "BPk")) (Some (js "s3c")).
Definition sub_E1 : Subscription := mkSubscription "E1" keys0 (Some (js "abc")).
Definition sub_E2 : Subscription := mkSubscription "E2" keys0 (Some (js "abc")).
Definition sub_E3 : Subscription := mkSubscription "E3" keys0 (Some (js "xyz")).

Definition world0 : World :=
  mkWorld [] [sub_E1; sub_E2; sub_E3]
          (join_room "B" "abc" (join_room "A" "abc" (join_room "C" "xyz" ∅))).

Definition base0 : JsString := "http://localhost:5002".
Definition hello : MessageData := mkMessageData "abc" "u1" "hello" "" "".

Definition store_down : JsError := mkError None "store unavailable".
Definition http_error (code : Z) : JsError := mkError (Some code) "push service error".

(** Every collaborator answers. *)
Definition env_ok : Env :=
  mkEnv 0 Resolves Resolves Resolves (λ _, Resolves) (λ _, Resolves).

(** The store rejects the write of the Message. *)
Definition env_save_fails : Env :=
  mkEnv 0 (Rejects store_down) Resolves Resolves (λ _, Resolves) (λ _, Resolves).

(** The store rejects the subscription query. *)
Definition env_find_fails : Env :=
  mkEnv 0 Resolves (Rejects store_down) Resolves (λ _, Resolves) (λ _, Resolves).

(** The push service answers [code] for E1 and accepts the others. *)
Definition env_push_fails (code : Z) (delete_settles : Settled) : Env :=
  mkEnv 0 Resolves Resolves Resolves (λ _, delete_settles)
        (λ s, if decide (endpoint s = "E1") then Rejects (http_error code) else Resolves).

(** A text of 120 characters and an event that carries it with an image. *)
Definition long_text : JsString :=
  "0123456789012345678901234567890123456789012345678901234567890123456789012345678901234567890123456789ABCDEFGHIJKLMNOPQRST".

Definition photo : MessageData :=
  mkMessageData "abc" "u1" long_text "https://files.example/cat.png" "image/png".

(** Registration bodies: without endpoint, with keys that lack both
    members and no session id, and a complete one that rebinds E1. *)
Definition body_no_endpoint : SubscriptionBody :=
  mkBody None (Some keys0) (Some (js "abc")).
Definition body_bare_keys : SubscriptionBody :=
  mkBody (Some (js "E9")) (Some (mkKeys None None)) None.
Definition body_rebind_E1 : SubscriptionBody :=
  mkBody (Some (js "E1")) (Some (mkKeys (Some (js "BPk2")) (Some (js "s3c2")))) (Some (js "xyz")).

Definition accented : JsString := replicate 60 233%N.
Definition smiley_at_100 : JsString := replicate 99 97%N ++ [55357; 56832]%N.

(** ** The chatMessage handler of the variants without push

    The second server of src/unnamed/part_000 and src/server.js build the
    Message before the [try], save it inside, and broadcast. *)
Definition chatMessage_plain (env : Env) (socket : conn) (ev : MessageData) : M unit :=
  try_catch (Message_save env ev)
            (λ error, console_error "Error saving message:");;
  io_to_emit (sessionId ev) "chatMessage" (messageData ev).

(** ** Sequences of requests

    What reaches the push-enabled server over time: socket events and
    registration requests, each handled to completion. *)
Inductive Request :=
| JoinSession (socket : conn) (sid : JsString)
| ChatMessage (env : Env) (socket : conn) (ev : MessageData)
| Disconnect (socket : conn)
| SaveSubscription (env : Env) (sub : SubscriptionBody).

Definition serve (BASE_URL : JsString) (req : Request) (w : World) : World * list Effect :=
  match req with
  | JoinSession socket sid =>
      let r := joinSession socket sid w in (world_of r, trace_of r)
  | ChatMessage env socket ev =>
      let r := chatMessage_event BASE_URL env socket ev w in (world_of r, trace_of r)
  | Disconnect socket =>
      let r := disconnect socket w in (world_of r, trace_of r)
  | SaveSubscription env sub =>
      let r := save_subscription env sub w in (world_of r, trace_of r)
  end.

Fixpoint serve_all (BASE_URL : JsString) (reqs : list Request) (w : World)
    : World * list Effect :=
  match reqs with
  | [] => (w, [])
  | req :: reqs' =>
      let r := serve BASE_URL req w in
      let r' := serve_all BASE_URL reqs' r.1 in
      (r'.1, r.2 ++ r'.2)
  end.

(** The Message a request adds to the collection, if any. *)
Definition saved_message (req : Request) : option Message :=
  match req with
  | ChatMessage env _ ev =>
      match Message_save_settles env with
      | Resolves => Some (mkMessage ev (Date_now env))
      | Rejects _ => None
      end
  | _ => None
  end.

(** The document a request writes to the Subscription collection, if any. *)
Definition registered_doc (req : Request) : option Subscription :=
  match req with
  | SaveSubscription env sub =>
      match body_endpoint sub, body_keys sub, Subscription_update_settles env with
      | Some e, Some k, Resolves =>
          if decide (e = []) then None
          else Some (mkSubscription e k (body_sessionId sub))
      | _, _, _ => None
      end
  | _ => None
  end.


(** ** Configuration and startup

    [process.env], as it is once dotenv has run and the modules of lines
    1-17 have loaded, is a finite map from names to strings.  The top level
    of a server checks the configuration, then makes its initialisation
    calls in the order of the source and ends with [server.listen].  A
    startup that reaches [process.exit(1)] ends there; a call that throws
    at top level ends the process with that error. *)
Record Urls := mkUrls {
  cfg_PORT       : JsString;
  cfg_BASE_URL   : JsString;
  cfg_CLIENT_URL : JsString
}.

(** The top-level calls that take the configuration, a file or what was
    made of them: [webpush.setVapidDetails], [cors], [socketIO],
    [mongoose.connect], [require('./service-account.json')],
    [google.auth.fromJSON], [google.drive], the making of the uploads
    directory and [server.listen]. *)
Inductive InitCall :=
| WebpushSetVapidDetails (subject publicKey privateKey : JsString)
| Cors (origin : JsString)
| SocketIO (origin : JsString)
| MongooseConnect (uri : JsString)
| RequireServiceAccount
| GoogleAuthFromJSON
| GoogleDrive
| MkdirUploads
| ServerListen (port : JsString).

#[global] Instance InitCall_eq_dec : EqDecision InitCall.
Proof. solve_decision. Defined.

(** How the top level ends: [server.listen] has been called and has
    returned, a call has thrown, or [process.exit] was called after logging
    [msg]. *)
Inductive Startup :=
| Listening (MONGODB_URI : JsString) (urls : Urls)
| Crashed (err : JsError)
| Exited (code : nat) (msg : JsString).

(** The initialisation calls run in order; [throws] tells which of them
    throw.  The result is how the startup ends and the calls made. *)
Fixpoint boot (throws : InitCall → option JsError) (calls : list InitCall)
    (listening : Startup) : Startup * list InitCall :=
  match calls with
  | [] => (listening, [])
  | c :: calls' =>
      match throws c with
      | Some err => (Crashed err, [c])
      | None =>
          let r := boot throws calls' listening in
          (r.1, c :: r.2)
      end
  end.

(** [const { PORT = 5002, BASE_URL = `http://localhost:${PORT}`, CLIENT_URL =
    'http://localhost:3000' } = process.env]: a default is taken only for a
    variable that is not set. *)
Definition urls_destructured (env : gmap string JsString) : Urls :=
  let PORT := default (js "5002") (env !! "PORT") in
  let BASE_URL := default (js "http://localhost:" ++ PORT) (env !! "BASE_URL") in
  let CLIENT_URL := default (js "http://localhost:3000") (env !! "CLIENT_URL") in
  mkUrls PORT BASE_URL CLIENT_URL.

(** [x || d] for a value that is a string or [undefined]. *)
Definition or_default (x : option JsString) (d : JsString) : JsString :=
  match x with
  | Some s => or_else s d
  | None => d
  end.

(** [process.env.PORT || 5002], [process.env.BASE_URL ||
    `http://localhost:${PORT}`], [process.env.CLIENT_URL ||
    'http://localhost:3000'] of src/server.js. *)
Definition urls_or (env : gmap string JsString) : Urls :=
  let PORT := or_default (env !! "PORT") (js "5002") in
  let BASE_URL := or_default (env !! "BASE_URL") (js "http://localhost:" ++ PORT) in
  let CLIENT_URL := or_default (env !! "CLIENT_URL") (js "http://localhost:3000") in
  mkUrls PORT BASE_URL CLIENT_URL.

(** The initialisation calls of the push-enabled server, lines 49-340 of
    src/unnamed/part_000. *)
Definition init_push (uri pub priv : JsString) (urls : Urls) : list InitCall :=
  [ WebpushSetVapidDetails "mailto:you@yourdomain.com" pub priv;
    Cors (cfg_CLIENT_URL urls);
    SocketIO (cfg_CLIENT_URL urls);
    MongooseConnect uri;
    RequireServiceAccount;
    GoogleAuthFromJSON;
    GoogleDrive;
    ServerListen (cfg_PORT urls) ].

(** Those of the second server of src/unnamed/part_000, lines 386-625. *)
Definition init_drive (uri : JsString) (urls : Urls) : list InitCall :=
  [ Cors (cfg_CLIENT_URL urls);
    SocketIO (cfg_CLIENT_URL urls);
    MongooseConnect uri;
    RequireServiceAccount;
    GoogleAuthFromJSON;
    GoogleDrive;
    ServerListen (cfg_PORT urls) ].

(** Those of src/server.js, lines 38-237; the uploads directory is made
    when it does not exist. *)
Definition init_local (uri : JsString) (urls : Urls) : list InitCall :=
  [ Cors (cfg_CLIENT_URL urls);
    SocketIO (cfg_CLIENT_URL urls);
    MongooseConnect uri;
    MkdirUploads;
    ServerListen (cfg_PORT urls) ].

(** Startup of the push-enabled server. *)
Definition startup_push (env : gmap string JsString)
    (throws : InitCall → option JsError) : Startup * list InitCall :=
  if falsy_string (env !! "MONGODB_URI") then
    (Exited 1 "Error: MONGODB_URI environment variable is required", [])
  else if falsy_string (env !! "GOOGLE_DRIVE_FOLDER_ID") then
    (Exited 1 "Error: GOOGLE_DRIVE_FOLDER_ID environment variable is required", [])
  else if falsy_string (env !! "VAPID_PUBLIC_KEY")
          || falsy_string (env !! "VAPID_PRIVATE_KEY") then
    (Exited 1
       "Error: VAPID_PUBLIC_KEY and VAPID_PRIVATE_KEY are required for Push Notifications",
     [])
  else
    let uri := default [] (env !! "MONGODB_URI") in
    let pub := default [] (env !! "VAPID_PUBLIC_KEY") in
    let priv := default [] (env !! "VAPID_PRIVATE_KEY") in
    let urls := urls_destructured env in
    boot throws (init_push uri pub priv urls) (Listening uri urls).

(** Startup of the second server of src/unnamed/part_000. *)
Definition startup_drive (env : gmap string JsString)
    (throws : InitCall → option JsError) : Startup * list InitCall :=
  if falsy_string (env !! "MONGODB_URI") then
    (Exited 1 "Error: MONGODB_URI environment variable is required", [])
  else if falsy_string (env !! "GOOGLE_DRIVE_FOLDER_ID") then
    (Exited 1 "Error: GOOGLE_DRIVE_FOLDER_ID environment variable is required", [])
  else
    let uri := default [] (env !! "MONGODB_URI") in
    let urls := urls_destructured env in
    boot throws (init_drive uri urls) (Listening uri urls).

(** Startup of src/server.js. *)
Definition startup_local (env : gmap string JsString)
    (throws : InitCall → option JsError) : Startup * list InitCall :=
  if falsy_string (env !! "MONGODB_URI") then
    (Exited 1 "Error: MONGODB_URI environment variable is required", [])
  else
    let uri := default [] (env !! "MONGODB_URI") in
    let urls := urls_or env in
    boot throws (init_local uri urls) (Listening uri urls).

(** ** Uploads *)

(** What multer knows of an uploaded file. *)
Record File := mkFile {
  originalname : JsString;
  mimetype     : JsString
}.

Inductive Filtered :=
| Accepted
| Refused (error : JsString).

(** [fileFilter] of the three servers. *)
Definition fileFilter (file : File) : Filtered :=
  if startsWith "image/" (mimetype file) || startsWith "audio/" (mimetype file)
  then Accepted
  else Refused "Only images and audio files are allowed.".

(** [filename] of the disk storage of src/server.js: [Date.now()] and
    [Math.round(Math.random() * 1e9)] are natural numbers, written in
    decimal when concatenated with a string. *)
Definition disk_filename (now random : N) (file : File) : JsString :=
  let uniqueSuffix := js (pretty now) ++ js "-" ++ js (pretty random) in
  uniqueSuffix ++ js "-" ++ originalname file.

Inductive UploadReply :=
| UploadJson (fileUrl : option JsString)
| UploadError (status : nat) (error : JsString).

(** [POST /api/upload] of src/server.js; [filename] is the name the storage
    gave the file. *)
Definition upload_local (BASE_URL : JsString) (req_file : option JsString) : UploadReply :=
  match req_file with
  | None => UploadError 400 "No file provided or file too large."
  | Some filename => UploadJson (Some (BASE_URL ++ js "/uploads/" ++ filename))
  end.

(** The three calls to Google Drive of the upload route and how they
    settle. *)
Inductive DriveCall :=
| DriveFilesCreate (name mimeType parent : JsString)
| DrivePermissionsCreate (fileId role type : JsString)
| DriveFilesGet (fileId fields : JsString)
| DriveConsoleError (msg : JsString).

Inductive Answer (A : Type) :=
| Answers (a : A)
| Fails (err : JsError).
Arguments Answers {A} a.
Arguments Fails {A} err.

Record DriveEnv := mkDriveEnv {
  drive_files_create       : Answer JsString;
  drive_permissions_create : Answer unit;
  drive_files_get          : Answer (option JsString)
}.

(** [POST /api/upload] of the two servers of src/unnamed/part_000.  The
    result is the reply and the calls made, in order. *)
Definition upload_drive (GOOGLE_DRIVE_FOLDER_ID : JsString) (env : DriveEnv)
    (req_file : option File) : UploadReply * list DriveCall :=
  match req_file with
  | None => (UploadError 400 "No file provided or file too large.", [])
  | Some file =>
      let failed (err : JsError) (calls : list DriveCall) :=
        (UploadError 500 (or_else (message err) "Upload to Google Drive failed."),
         calls ++ [DriveConsoleError "Google Drive upload error:"]) in
      let create := DriveFilesCreate (originalname file) (mimetype file)
                                     GOOGLE_DRIVE_FOLDER_ID in
      match drive_files_create env with
      | Fails err => failed err [create]
      | Answers fileId =>
          let share := DrivePermissionsCreate fileId "reader" "anyone" in
          match drive_permissions_create env with
          | Fails err => failed err [create; share]
          | Answers _ =>
              let get := DriveFilesGet fileId "webContentLink" in
              match drive_files_get env with
              | Fails err => failed err [create; share; get]
              | Answers webContentLink =>
                  (UploadJson webContentLink, [create; share; get])
              end
          end
      end
  end.

(** Variable [k] of the environment is set to a string that is not empty. *)
Definition is_set (env : gmap string JsString) (k : string) : Prop :=
  ∃ v : JsString, env !! k = Some v ∧ v ≠ [].

(** The code unit of the dash. *)
Definition dash : code_unit := N_of_ascii "-".

(** No code unit of [s] is a dash. *)
Fixpoint no_dash (s : JsString) : bool :=
  match s with
  | [] => true
  | c :: s' => negb (c =? dash)%N && no_dash s'
  end.

(** A complete configuration of the push-enabled server, and a web-push
    library that refuses the keys. *)
Definition env_push : gmap string JsString :=
  {[ "MONGODB_URI" := js "mongodb://db/chat";
     "GOOGLE_DRIVE_FOLDER_ID" := js "folder";
     "VAPID_PUBLIC_KEY" := js "not-a-key";
     "VAPID_PRIVATE_KEY" := js "secret" ]}.

Definition bad_vapid_key : JsError :=
  mkError None "Vapid public key should be 65 bytes long when decoded.".

Definition refuses_vapid (c : InitCall) : option JsError :=
  match c with
  | WebpushSetVapidDetails _ _ _ => Some bad_vapid_key
  | _ => None
  end.

(** A picture and a voice note, as multer reports them. *)
Definition cat_png : File := mkFile "cat.png" "image/png".
Definition note_ogg : File := mkFile "note.ogg" "audio/ogg".

(** ** The REST routes over the store

    Sessions, users and the message history.  The routes run in the same
    kind of monad as the socket handlers, over a state that adds the two
    other collections to the world. *)
Record ChatSession := mkChatSession {
  cs_sessionId : JsString;
  cs_createdAt : Z
}.

Record User := mkUser {
  user_id          : JsString;
  user_name        : JsString;
  user_email       : JsString;
  user_companyName : JsString;
  user_link        : JsString;
  user_createdAt   : Z
}.

(** [{ name, email, companyName }] of a request body: each may be absent. *)
Record UserBody := mkUserBody {
  body_name        : option JsString;
  body_email       : option JsString;
  body_companyName : option JsString
}.

#[global] Instance ChatSession_eq_dec : EqDecision ChatSession.
Proof. solve_decision. Defined.
#[global] Instance User_eq_dec : EqDecision User.
Proof. solve_decision. Defined.
#[global] Instance Message_eq_dec : EqDecision Message.
Proof. solve_decision. Defined.

Record Site := mkSite {
  world        : World;
  chatSessions : list ChatSession;
  users        : list User
}.

(** What one request gets from outside: the clock, the uuid and the document
    id that are generated, and how each call to the store settles. *)
Record ApiEnv := mkApiEnv {
  api_now                  : Z;
  api_uuidv4               : JsString;
  api_objectId             : JsString;
  ChatSession_save_settles : Settled;
  ChatSession_find_settles : Settled;
  Message_find_settles     : Settled;
  User_save_settles        : Settled;
  User_find_settles        : Settled;
  User_delete_settles      : Settled
}.

Inductive ApiCall :=
| ApiConsoleError (msg : JsString)
| ChatSessionSave (sid : JsString)
| ChatSessionFind
| MessageFind (sid : JsString)
| UserSave (link : JsString)
| UserFind
| UserFindByIdAndDelete (id : JsString)
| IoEmit (event : string) (u : User).

Inductive ApiReply :=
| JsonSessionId (sid : JsString)
| JsonSessions (l : list ChatSession)
| JsonMessages (l : list Message)
| JsonUser (u : User)
| JsonUsers (l : list User)
| JsonError (status : nat) (error : JsString)
| NoContent (status : nat).

Definition Prog (St Ev A : Type) : Type := St → Outcome A * St * list Ev.

#[global] Instance Prog_ret {St Ev} : MRet (Prog St Ev) := λ A a s, (Returned a, s, []).

#[global] Instance Prog_bind {St Ev} : MBind (Prog St Ev) := λ A B f m s,
  match m s with
  | (Returned a, s1, t1) =>
      match f a s1 with
      | (o, s2, t2) => (o, s2, t1 ++ t2)
      end
  | (Threw err, s1, t1) => (Threw err, s1, t1)
  end.

(** [try { body } catch (err) { handler }]. *)
Definition attempt {St Ev A} (body : Prog St Ev A)
    (handler : JsError → Prog St Ev A) : Prog St Ev A := λ s,
  match body s with
  | (Threw err, s1, t1) =>
      match handler err s1 with
      | (o, s2, t2) => (o, s2, t1 ++ t2)
      end
  | r => r
  end.

Definition api_console_error (msg : JsString) : Prog Site ApiCall unit :=
  λ s, (Returned tt, s, [ApiConsoleError msg]).

(** [.sort({ createdAt: 1 })] and [.sort({ createdAt: -1 })]. *)
Definition not_after {A} (createdAt : A → Z) : relation A :=
  λ a b, (createdAt a ≤ createdAt b)%Z.

Definition not_before {A} (createdAt : A → Z) : relation A :=
  λ a b, (createdAt b ≤ createdAt a)%Z.

#[global] Instance not_after_dec {A} (createdAt : A → Z) : RelDecision (not_after createdAt) :=
  λ a b, decide (createdAt a ≤ createdAt b)%Z.

#[global] Instance not_before_dec {A} (createdAt : A → Z) : RelDecision (not_before createdAt) :=
  λ a b, decide (createdAt b ≤ createdAt a)%Z.

Definition oldest_first {A} (createdAt : A → Z) (l : list A) : list A :=
  merge_sort (not_after createdAt) l.

Definition newest_first {A} (createdAt : A → Z) (l : list A) : list A :=
  merge_sort (not_before createdAt) l.

Definition duplicate_key : JsError := mkError None "E11000 duplicate key error".
Definition validation_failed : JsError := mkError None "User validation failed".

Section Routes.

Variable CLIENT_URL : JsString.
Variable env : ApiEnv.

(** [new ChatSession({ sessionId }).save()]: the unique index of
    [chatSessionSchema] refuses a session id that is already stored;
    [createdAt] is filled in with [Date.now]. *)
Definition ChatSession_save (sid : JsString) : Prog Site ApiCall unit := λ s,
  if decide (sid ∈ cs_sessionId <$> chatSessions s) then
    (Threw duplicate_key, s, [ChatSessionSave sid])
  else
    match ChatSession_save_settles env with
    | Resolves =>
        (Returned tt,
         mkSite (world s) (chatSessions s ++ [mkChatSession sid (api_now env)]) (users s),
         [ChatSessionSave sid])
    | Rejects err => (Threw err, s, [ChatSessionSave sid])
    end.

(** [ChatSession.find().sort({ createdAt: -1 })]. *)
Definition ChatSession_find_sorted : Prog Site ApiCall (list ChatSession) := λ s,
  match ChatSession_find_settles env with
  | Resolves => (Returned (newest_first cs_createdAt (chatSessions s)), s, [ChatSessionFind])
  | Rejects err => (Threw err, s, [ChatSessionFind])
  end.

(** [Message.find({ sessionId }).sort({ createdAt: 1 })]. *)
Definition Message_find_sorted (sid : JsString) : Prog Site ApiCall (list Message) := λ s,
  match Message_find_settles env with
  | Resolves =>
      (Returned (oldest_first createdAt
                   (filter (λ m, sessionId (data m) = sid) (messages (world s)))),
       s, [MessageFind sid])
  | Rejects err => (Threw err, s, [MessageFind sid])
  end.

(** [new User({ name, email, companyName, link }).save()]: the four fields
    are required by [userSchema], so a document with an absent one is
    refused; the result is the saved document. *)
Definition User_save (body : UserBody) (link : JsString) : Prog Site ApiCall User := λ s,
  match body_name body, body_email body, body_companyName body with
  | Some name, Some email, Some companyName =>
      match User_save_settles env with
      | Resolves =>
          let newUser := mkUser (api_objectId env) name email companyName link (api_now env) in
          (Returned newUser, mkSite (world s) (chatSessions s) (users s ++ [newUser]),
           [UserSave link])
      | Rejects err => (Threw err, s, [UserSave link])
      end
  | _, _, _ => (Threw validation_failed, s, [UserSave link])
  end.

(** [User.find().sort({ createdAt: -1 })]. *)
Definition User_find_sorted : Prog Site ApiCall (list User) := λ s,
  match User_find_settles env with
  | Resolves => (Returned (newest_first user_createdAt (users s)), s, [UserFind])
  | Rejects err => (Threw err, s, [UserFind])
  end.

(** Removes the first user with id [id], if there is one. *)
Fixpoint delete_by_id (id : JsString) (l : list User) : list User :=
  match l with
  | [] => []
  | u :: l' => if decide (user_id u = id) then l' else u :: delete_by_id id l'
  end.

(** [User.findByIdAndDelete(id)]: resolves whether or not a user has the id. *)
Definition User_findByIdAndDelete (id : JsString) : Prog Site ApiCall unit := λ s,
  match User_delete_settles env with
  | Resolves =>
      (Returned tt, mkSite (world s) (chatSessions s) (delete_by_id id (users s)),
       [UserFindByIdAndDelete id])
  | Rejects err => (Threw err, s, [UserFindByIdAndDelete id])
  end.

(** [io.emit('newUser', newUser)]. *)
Definition io_emit_newUser (newUser : User) : Prog Site ApiCall unit :=
  λ s, (Returned tt, s, [IoEmit "newUser" newUser]).

(** [POST /api/create-chat]. *)
Definition create_chat : Prog Site ApiCall ApiReply :=
  attempt
    (let sessionId := api_uuidv4 env in
     ChatSession_save sessionId;;
     mret (JsonSessionId sessionId))
    (λ error,
       api_console_error "Error creating chat session:";;
       mret (JsonError 500 "Could not create chat session")).

(** [GET /api/chat-sessions]. *)
Definition chat_sessions : Prog Site ApiCall ApiReply :=
  attempt
    (sessions ← ChatSession_find_sorted; mret (JsonSessions sessions))
    (λ error,
       api_console_error "Error fetching chat sessions:";;
       mret (JsonError 500 "Could not fetch chat sessions")).

(** [GET /api/messages/:sessionId]. *)
Definition get_messages (sid : JsString) : Prog Site ApiCall ApiReply :=
  attempt
    (msgs ← Message_find_sorted sid; mret (JsonMessages msgs))
    (λ error,
       api_console_error "Error fetching messages:";;
       mret (JsonError 500 "Failed to fetch messages")).

(** [POST /api/create-user] of the two servers of src/unnamed/part_000. *)
Definition create_user (body : UserBody) : Prog Site ApiCall ApiReply :=
  attempt
    (let sessionId := api_uuidv4 env in
     ChatSession_save sessionId;;
     let link := CLIENT_URL ++ js "/chat/" ++ sessionId in
     newUser ← User_save body link;
     io_emit_newUser newUser;;
     mret (JsonUser newUser))
    (λ error,
       api_console_error "Error creating user:";;
       mret (JsonError 500 "Could not create user")).

(** [POST /api/create-user] of src/server.js: no session is saved and
    nothing is emitted. *)
Definition create_user_local (body : UserBody) : Prog Site ApiCall ApiReply :=
  attempt
    (let link := CLIENT_URL ++ js "/chat/" ++ api_uuidv4 env in
     newUser ← User_save body link;
     mret (JsonUser newUser))
    (λ error,
       api_console_error "Error creating user:";;
       mret (JsonError 500 "Could not create user")).

(** [GET /api/users]. *)
Definition get_users : Prog Site ApiCall ApiReply :=
  attempt
    (us ← User_find_sorted; mret (JsonUsers us))
    (λ error,
       api_console_error "Error fetching users:";;
       mret (JsonError 500 "Could not fetch users")).

(** [DELETE /api/users/:id]. *)
Definition delete_user (id : JsString) : Prog Site ApiCall ApiReply :=
  attempt
    (User_findByIdAndDelete id;; mret (NoContent 204))
    (λ err,
       api_console_error "Error deleting user:";;
       mret (JsonError 500 "Failed to delete user")).

End Routes.

(** Requests to the session, history and user routes of a server of
    src/unnamed/part_000. *)
Inductive ApiRequest :=
| CreateChat (env : ApiEnv)
| ChatSessions (env : ApiEnv)
| GetMessages (env : ApiEnv) (sid : JsString)
| CreateUser (env : ApiEnv) (body : UserBody)
| GetUsers (env : ApiEnv)
| DeleteUser (env : ApiEnv) (id : JsString).

Definition route (CLIENT_URL : JsString) (req : ApiRequest) : Prog Site ApiCall ApiReply :=
  match req with
  | CreateChat env => create_chat env
  | ChatSessions env => chat_sessions env
  | GetMessages env sid => get_messages env sid
  | CreateUser env body => create_user CLIENT_URL env body
  | GetUsers env => get_users env
  | DeleteUser env id => delete_user env id
  end.

(** Anything the push-enabled server handles: a request to one of these
    routes, or a socket event or registration, which acts on the world. *)
Inductive SiteRequest :=
| ViaRoute (req : ApiRequest)
| ViaWorld (req : Request).

(** The site after a request. *)
Definition site_after (BASE_URL CLIENT_URL : JsString) (req : SiteRequest) (s : Site) : Site :=
  match req with
  | ViaRoute r => (route CLIENT_URL r s).1.2
  | ViaWorld r => mkSite (serve BASE_URL r (world s)).1 (chatSessions s) (users s)
  end.

Fixpoint site_after_all (BASE_URL CLIENT_URL : JsString) (reqs : list SiteRequest)
    (s : Site) : Site :=
  match reqs with
  | [] => s
  | req :: reqs' =>
      site_after_all BASE_URL CLIENT_URL reqs' (site_after BASE_URL CLIENT_URL req s)
  end.

(** Every user's link is the chat page of a stored session. *)
Definition users_have_sessions (CLIENT_URL : JsString) (s : Site) : Prop :=
  ∀ u, u ∈ users s →
       ∃ c, c ∈ chatSessions s ∧ user_link u = CLIENT_URL ++ js "/chat/" ++ cs_sessionId c.

Definition site0 : Site :=
  mkSite world0 [mkChatSession "abc" 10; mkChatSession "xyz" 20]
         [mkUser "u-1" "Ada" "ada@example.org" "Engines" "http://localhost:3000/chat/abc" 10].

Definition api_ok : ApiEnv :=
  mkApiEnv 30 "s-30" "u-30" Resolves Resolves Resolves Resolves Resolves Resolves.

Definition ada : UserBody :=
  mkUserBody (Some (js "Ada")) (Some (js "ada@example.org")) (Some (js "Engines")).
Definition nameless : UserBody :=
  mkUserBody None (Some (js "ada@example.org")) (Some (js "Engines")).

(** ** How the handlers run *)

(** One step of a sequence: the outermost bind of the goal is unfolded. *)
Ltac bind_step := unfold mbind at 1; unfold M_bind at 1.

Lemma webpush_forEach_run subs payload w :
  forEach subs (λ sub, webpush_sendNotification sub payload) w =
  (Returned subs, w, (λ sub, SendNotification sub payload) <$> subs).
Proof.
  induction subs as [|s subs IH]; [reflexivity|].
  cbn [forEach]. bind_step. cbn.
  bind_step. rewrite IH. cbn.
  by rewrite app_nil_r.
Qed.

Lemma settle_push_run env sub w :
  settle_push env sub w =
  (Returned tt,
   mkWorld (messages w) (settle_store env sub (subscriptions w)) (rooms w),
   settle_trace env sub).
Proof.
  unfold settle_push, settle_store, settle_trace, prunes, on_push_rejected.
  destruct w as [ms ss rs]; cbn.
  destruct (sendNotification_settles env sub) as [|err]; [reflexivity|].
  destruct (gone err); cbn; [|reflexivity].
  unfold try_catch, Subscription_deleteOne; cbn.
  destruct (Subscription_deleteOne_settles env (endpoint sub)); reflexivity.
Qed.

Lemma settle_forEach_run env l w :
  ∃ us, forEach l (settle_push env) w =
  (Returned us,
   mkWorld (messages w)
           (fold_left (λ acc s, settle_store env s acc) l (subscriptions w))
           (rooms w),
   concat (settle_trace env <$> l)).
Proof.
  revert w. induction l as [|s l IH]; intros w.
  - exists []. destruct w; reflexivity.
  - destruct (IH (mkWorld (messages w) (settle_store env s (subscriptions w)) (rooms w)))
      as [us Hus].
    exists (tt :: us). cbn [forEach]. bind_step.
    rewrite settle_push_run. bind_step. rewrite Hus. cbn.
    by rewrite app_nil_r.
Qed.

Lemma chatMessage_run BASE_URL env socket ev w :
  chatMessage BASE_URL env socket ev w =
  (Returned match Subscription_find_settles env with
            | Resolves => find_by_session (sessionId ev) (subscriptions w)
            | Rejects _ => []
            end,
   mkWorld (persist_store env ev (messages w)) (subscriptions w) (rooms w),
   persist_trace env ev ++ broadcast ev w ::
   SubscriptionFind (sessionId ev) ::
   match Subscription_find_settles env with
   | Resolves =>
       (λ sub, SendNotification sub (JSON_stringify (notification BASE_URL ev)))
         <$> find_by_session (sessionId ev) (subscriptions w)
   | Rejects _ => [ConsoleError "Error sending push notifications:"]
   end).
Proof.
  destruct w as [ms ss rs].
  unfold chatMessage, persist_store, persist_trace, broadcast.
  unfold mbind, M_bind, try_catch, Message_save, io_to_emit, Subscription_find,
    console_error; cbn.
  destruct (Message_save_settles env) as [|e1]; cbn;
    destruct (Subscription_find_settles env) as [|e2]; cbn;
    rewrite ?webpush_forEach_run; cbn; rewrite ?app_nil_r; reflexivity.
Qed.

Lemma chatMessage_event_run BASE_URL env socket ev w :
  chatMessage_event BASE_URL env socket ev w =
  (Returned tt,
   mkWorld (persist_store env ev (messages w))
           (dispatch_store env ev (subscriptions w))
           (rooms w),
   persist_trace env ev ++ broadcast ev w ::
   dispatch_trace BASE_URL env ev (subscriptions w)).
Proof.
  unfold chatMessage_event. bind_step.
  rewrite chatMessage_run. unfold mbind, M_bind.
  unfold dispatch_store, dispatch_trace.
  destruct (Subscription_find_settles env) as [|e2].
  - destruct (settle_forEach_run env
      (find_by_session (sessionId ev) (subscriptions w))
      (mkWorld (persist_store env ev (messages w)) (subscriptions w) (rooms w)))
      as [us ->].
    cbn. rewrite app_nil_r, <- !app_assoc. reflexivity.
  - cbn. rewrite app_nil_r. reflexivity.
Qed.

(** ** The Subscription collection under its unique index *)

Section Store.

Implicit Types (l : list Subscription) (s doc : Subscription) (e : JsString).

Lemma unique_endpoints_cons s l :
  unique_endpoints (s :: l) ↔
  (∀ s', s' ∈ l → endpoint s' ≠ endpoint s) ∧ unique_endpoints l.
Proof.
  unfold unique_endpoints. rewrite fmap_cons, NoDup_cons, list_elem_of_fmap.
  split; intros [H1 H2]; split; try done.
  - intros s' Hs' Heq. apply H1. eauto.
  - intros (s' & Heq & Hs'). by apply (H1 s').
Qed.

Lemma delete_one_subseteq e l : delete_one e l ⊆ l.
Proof.
  induction l as [|s l IH]; cbn; [done|].
  intros x Hx. case_decide.
  - by apply list_elem_of_further.
  - apply elem_of_cons in Hx as [->|Hx]; [apply list_elem_of_here|].
    by apply list_elem_of_further, IH.
Qed.

Lemma unique_endpoints_delete_one e l :
  unique_endpoints l → unique_endpoints (delete_one e l).
Proof.
  induction l as [|s l IH]; cbn; [done|].
  rewrite unique_endpoints_cons. intros [Hs Hl].
  case_decide; [done|].
  apply unique_endpoints_cons. split; [|by apply IH].
  intros s' Hs'. apply Hs. by apply (delete_one_subseteq e).
Qed.

Lemma elem_of_delete_one e s l :
  unique_endpoints l →
  s ∈ delete_one e l ↔ s ∈ l ∧ endpoint s ≠ e.
Proof.
  induction l as [|s0 l IH]; cbn.
  - intros _. split; [intros H|intros [H _]]; by apply elem_of_nil in H.
  - rewrite unique_endpoints_cons. intros [Hs Hl].
    case_decide as He.
    + rewrite elem_of_cons. split.
      * intros Hin. split; [by right|]. subst e. by apply Hs.
      * intros [[->|Hin] Hne]; done.
    + rewrite !elem_of_cons, IH by done. split.
      * intros [->|[Hin Hne]]; eauto.
      * intros [[->|Hin] Hne]; eauto.
Qed.

Lemma unique_endpoints_settle env (subs l : list Subscription) :
  unique_endpoints l →
  unique_endpoints (fold_left (λ acc s, settle_store env s acc) subs l).
Proof.
  revert l. induction subs as [|sub subs IH]; intros l Hl; cbn; [done|].
  apply IH. unfold settle_store.
  destruct (prunes env sub); [by apply unique_endpoints_delete_one|done].
Qed.

(** After the sends to [subs] have settled, a document is still stored
    exactly when no pruned send had its endpoint. *)
Lemma elem_of_settle env (subs l : list Subscription) s :
  unique_endpoints l →
  s ∈ fold_left (λ acc s, settle_store env s acc) subs l ↔
  s ∈ l ∧ ∀ sub, sub ∈ subs → prunes env sub = true → endpoint s ≠ endpoint sub.
Proof.
  revert l. induction subs as [|sub subs IH]; intros l Hl; cbn.
  - split; [intros H; split; [done|]; intros sub Hsub; by apply elem_of_nil in Hsub
           |by intros [H _]].
  - unfold settle_store at 2. destruct (prunes env sub) eqn:Hp.
    + rewrite IH by (by apply unique_endpoints_delete_one).
      rewrite elem_of_delete_one by done. split.
      * intros [[Hin Hne] Hrest]. split; [done|].
        intros sub' Hsub'. apply elem_of_cons in Hsub' as [->|Hsub']; eauto.
      * intros [Hin Hall]. split; [split; [done|]|].
        -- apply Hall; [by left|done].
        -- intros sub' Hsub'. apply Hall. by right.
    + rewrite IH by done. split.
      * intros [Hin Hrest]. split; [done|].
        intros sub' Hsub'. apply elem_of_cons in Hsub' as [->|Hsub']; [congruence|eauto].
      * intros [Hin Hall]. split; [done|].
        intros sub' Hsub'. apply Hall. by right.
Qed.

Lemma delete_one_comm e1 e2 l :
  delete_one e1 (delete_one e2 l) = delete_one e2 (delete_one e1 l).
Proof.
  induction l as [|s l IH]; [done|]. cbn.
  destruct (decide (endpoint s = e2)) as [H2|H2],
           (decide (endpoint s = e1)) as [H1|H1]; cbn.
  - congruence.
  - by rewrite decide_True by done.
  - by rewrite decide_True by done.
  - rewrite !decide_False by done. by f_equal.
Qed.

Lemma settle_store_comm env (a b : Subscription) l :
  settle_store env a (settle_store env b l) = settle_store env b (settle_store env a l).
Proof.
  unfold settle_store. destruct (prunes env a), (prunes env b); try done.
  apply delete_one_comm.
Qed.

(** The order in which the sends settle does not matter to the store. *)
Lemma settle_order_irrelevant env (subs subs' : list Subscription) l :
  subs ≡ₚ subs' →
  fold_left (λ acc s, settle_store env s acc) subs l =
  fold_left (λ acc s, settle_store env s acc) subs' l.
Proof.
  intros Hperm. revert l.
  induction Hperm as [|x xs ys _ IH|x y xs|xs ys zs _ IH1 _ IH2]; intros l; cbn.
  - done.
  - apply IH.
  - by rewrite settle_store_comm.
  - by rewrite IH1.
Qed.

Lemma settle_subseteq env (subs l : list Subscription) :
  fold_left (λ acc s, settle_store env s acc) subs l ⊆ l.
Proof.
  revert l. induction subs as [|sub subs IH]; intros l; cbn; [done|].
  etrans; [apply IH|]. unfold settle_store.
  destruct (prunes env sub); [apply delete_one_subseteq|done].
Qed.

Lemma elem_of_find_by_session sid s l :
  s ∈ find_by_session sid l ↔ s ∈ l ∧ sub_sessionId s = Some sid.
Proof. unfold find_by_session. rewrite list_elem_of_filter. tauto. Qed.

Lemma find_one_and_update_subseteq e doc l :
  find_one_and_update e doc l ⊆ doc :: l.
Proof.
  induction l as [|s l IH]; cbn; [done|].
  intros x Hx. case_decide.
  - apply elem_of_cons in Hx as [->|Hx]; [apply list_elem_of_here|].
    by do 2 apply list_elem_of_further.
  - apply elem_of_cons in Hx as [->|Hx].
    + apply list_elem_of_further, list_elem_of_here.
    + apply IH, elem_of_cons in Hx as [->|Hx]; [apply list_elem_of_here|].
      by do 2 apply list_elem_of_further.
Qed.

Lemma elem_of_find_one_and_update e doc l :
  doc ∈ find_one_and_update e doc l.
Proof.
  induction l as [|s l IH]; cbn; [by left|].
  case_decide; [by left|by right].
Qed.

Lemma unique_endpoints_find_one_and_update doc l :
  unique_endpoints l → unique_endpoints (find_one_and_update (endpoint doc) doc l).
Proof.
  induction l as [|s l IH]; cbn.
  - intros _. apply unique_endpoints_cons. split; [|apply NoDup_nil_2].
    intros s' Hs'. by apply elem_of_nil in Hs'.
  - rewrite unique_endpoints_cons. intros [Hs Hl].
    case_decide as He; apply unique_endpoints_cons; split; try done.
    + intros s' Hs'. rewrite <- He. by apply Hs.
    + intros s' Hs'.
      apply find_one_and_update_subseteq, elem_of_cons in Hs' as [->|Hs']; [done|].
      by apply Hs.
    + by apply IH.
Qed.

(** The other documents are neither lost nor changed. *)
Lemma find_one_and_update_others e doc l s :
  endpoint s ≠ e → endpoint doc = e →
  unique_endpoints l →
  s ∈ find_one_and_update e doc l ↔ s ∈ l.
Proof.
  intros Hne Hdoc. induction l as [|s0 l IH]; cbn.
  - intros _. rewrite list_elem_of_singleton. split; [intros ->; congruence|].
    intros H. by apply elem_of_nil in H.
  - rewrite unique_endpoints_cons. intros [Hs Hl].
    case_decide as He; rewrite !elem_of_cons.
    + split; intros [->|H]; try congruence; eauto.
    + rewrite IH by done. tauto.
Qed.

Lemma find_one_and_update_present e doc l :
  e ∈ endpoint <$> l →
  length (find_one_and_update e doc l) = length l.
Proof.
  induction l as [|s l IH]; cbn.
  - intros H. by apply elem_of_nil in H.
  - case_decide as He; [done|]. rewrite elem_of_cons. intros [->|H]; [done|].
    cbn. f_equal. by apply IH.
Qed.

Lemma find_one_and_update_fresh e doc l :
  e ∉ endpoint <$> l →
  find_one_and_update e doc l = l ++ [doc].
Proof.
  induction l as [|s l IH]; cbn; [done|].
  rewrite not_elem_of_cons. intros [Hne H].
  case_decide as He; [congruence|]. f_equal. by apply IH.
Qed.

End Store.

Lemma world0_unique_endpoints : unique_endpoints (subscriptions world0).
Proof. unfold unique_endpoints. apply (bool_decide_unpack _). vm_compute. exact I. Qed.


(** ** The chatMessage pipeline *)

Lemma push_call_persist_trace env ev :
  Forall (λ e, push_call e = false) (persist_trace env ev).
Proof.
  unfold persist_trace.
  destruct (Message_save_settles env); repeat constructor.
Qed.

Lemma is_emit_persist_trace env ev :
  Forall (λ e, is_emit e = false) (persist_trace env ev).
Proof.
  unfold persist_trace.
  destruct (Message_save_settles env); repeat constructor.
Qed.

Lemma is_emit_settle_trace env sub :
  Forall (λ e, is_emit e = false) (settle_trace env sub).
Proof.
  unfold settle_trace.
  destruct (sendNotification_settles env sub) as [|err]; [constructor|].
  destruct (gone err); [|repeat constructor].
  destruct (Subscription_deleteOne_settles env (endpoint sub)); repeat constructor.
Qed.

Lemma is_emit_dispatch_trace BASE_URL env ev l :
  Forall (λ e, is_emit e = false) (dispatch_trace BASE_URL env ev l).
Proof.
  unfold dispatch_trace. constructor; [done|].
  destruct (Subscription_find_settles env); [|repeat constructor].
  cbn. apply Forall_app. split.
  - apply Forall_fmap, Forall_forall. done.
  - apply Forall_concat, Forall_fmap, Forall_forall. intros sub _.
    apply is_emit_settle_trace.
Qed.

Lemma emits_none t : Forall (λ e, is_emit e = false) t → emits t = [].
Proof.
  unfold emits. induction 1 as [|e t He _ IH]; [done|].
  rewrite filter_cons_False; [exact IH|]. rewrite He. exact id.
Qed.

Lemma emits_chatMessage_event BASE_URL env socket ev w :
  emits (trace_of (chatMessage_event BASE_URL env socket ev w)) = [broadcast ev w].
Proof.
  rewrite chatMessage_event_run. unfold trace_of; cbn [snd].
  unfold emits. rewrite filter_app, filter_cons_True by done.
  fold (emits (persist_trace env ev)).
  fold (emits (dispatch_trace BASE_URL env ev (subscriptions w))).
  rewrite (emits_none _ (is_emit_persist_trace env ev)).
  by rewrite (emits_none _ (is_emit_dispatch_trace BASE_URL env ev _)).
Qed.

(** C1: when the store rejects the write of the Message, the handler does
    not fail and stores nothing; the rejection is logged and the next thing
    the handler does is the broadcast of the payload to the room of the
    session.  That broadcast is in the trace however the write (or any other
    call) settles. *)
Theorem C1_persistence_failure_is_logged_and_broadcast_proceeds
    BASE_URL env socket ev w err :
  Message_save_settles env = Rejects err →
  let r := chatMessage_event BASE_URL env socket ev w in
  let emit := SocketEmit (sessionId ev) "chatMessage" (messageData ev)
                (elements (room_members (sessionId ev) (rooms w))) in
  outcome_of r = Returned tt ∧
  messages (world_of r) = messages w ∧
  (∃ rest, trace_of r =
     MessageSave ev :: ConsoleError "Error saving message:" :: emit :: rest) ∧
  (∀ env', emit ∈ trace_of (chatMessage_event BASE_URL env' socket ev w)).
Proof.
  intros Hsave r emit. subst r emit.
  rewrite chatMessage_event_run. unfold outcome_of, world_of, trace_of; cbn.
  unfold persist_store, persist_trace. rewrite Hsave.
  split; [done|]. split; [done|]. split.
  - eexists. reflexivity.
  - intros env'. rewrite chatMessage_event_run. cbn [snd].
    apply elem_of_app. right. apply list_elem_of_here.
Qed.

Lemma C1_witness :
  Message_save_settles env_save_fails = Rejects store_down ∧
  let r := chatMessage_event base0 env_save_fails "A" hello world0 in
  let emit := SocketEmit "abc" "chatMessage" (messageData hello)
                (elements (room_members "abc" (rooms world0))) in
  outcome_of r = Returned tt ∧
  messages (world_of r) = messages world0 ∧
  (∃ rest, trace_of r =
     MessageSave hello :: ConsoleError "Error saving message:" :: emit :: rest) ∧
  (∀ env', emit ∈ trace_of (chatMessage_event base0 env' "A" hello world0)).
Proof.
  split; [reflexivity|].
  exact (C1_persistence_failure_is_logged_and_broadcast_proceeds
           base0 env_save_fails "A" hello world0 store_down eq_refl).
Defined.

(** C2: the broadcast is issued before anything of the push path.  The trace
    of an event is a prefix without any call of the push path, then the
    broadcast, then the subscription query and what follows it.  Prefix and
    broadcast are the same whatever the query, the sends and the deletes do
    (two runs that differ only there are compared), no other broadcast is
    issued, and no failure of the push path escapes the handler.  The
    handler itself, which ends once the sends are issued, runs the same
    however the sends and the deletes settle afterwards. *)
Theorem C2_broadcast_precedes_push_and_ignores_it
    BASE_URL socket ev w now save update find find' del del' send send' :
  let r := chatMessage_event BASE_URL (mkEnv now save find update del send) socket ev w in
  let r' := chatMessage_event BASE_URL (mkEnv now save find' update del' send') socket ev w in
  let emit := SocketEmit (sessionId ev) "chatMessage" (messageData ev)
                (elements (room_members (sessionId ev) (rooms w))) in
  ∃ pre post post',
    trace_of r = pre ++ emit :: SubscriptionFind (sessionId ev) :: post ∧
    trace_of r' = pre ++ emit :: SubscriptionFind (sessionId ev) :: post' ∧
    Forall (λ e, push_call e = false) pre ∧
    Forall (λ e, is_emit e = false) (pre ++ post) ∧
    outcome_of r = Returned tt ∧
    outcome_of r' = Returned tt ∧
    chatMessage BASE_URL (mkEnv now save find update del send) socket ev w =
    chatMessage BASE_URL (mkEnv now save find update del' send') socket ev w.
Proof.
  intros r r' emit. subst r r' emit.
  rewrite !chatMessage_event_run, !chatMessage_run.
  unfold outcome_of, trace_of; cbn [fst snd].
  set (env := mkEnv now save find update del send).
  set (env' := mkEnv now save find' update del' send').
  exists (persist_trace env ev),
         (tail (dispatch_trace BASE_URL env ev (subscriptions w))),
         (tail (dispatch_trace BASE_URL env' ev (subscriptions w))).
  split; [done|]. split; [done|]. split; [apply push_call_persist_trace|].
  split; [|done].
  apply Forall_app. split; [apply is_emit_persist_trace|].
  pose proof (is_emit_dispatch_trace BASE_URL env ev (subscriptions w)) as H.
  unfold dispatch_trace in *. by apply Forall_cons in H as [_ H].
Qed.

(** C6: an event for session S issues exactly one broadcast.  It is
    addressed to room S, carries the five members sessionId, sender, text,
    fileUrl and fileType of the event and no createdAt, and its recipients
    are, each once, the sockets joined to S when it is issued: the handling
    socket too when it is joined, and no socket that is not in room S. *)
Theorem C6_broadcast_payload_and_recipients BASE_URL env socket ev w :
  let r := chatMessage_event BASE_URL env socket ev w in
  ∃ payload recipients,
    emits (trace_of r) = [SocketEmit (sessionId ev) "chatMessage" payload recipients] ∧
    payload = [ ("sessionId", sessionId ev); ("sender", sender ev);
                ("text", text ev); ("fileUrl", fileUrl ev);
                ("fileType", fileType ev) ] ∧
    member "createdAt" payload = None ∧
    NoDup recipients ∧
    (∀ c, c ∈ recipients ↔ c ∈ room_members (sessionId ev) (rooms w)) ∧
    (socket ∈ room_members (sessionId ev) (rooms w) → socket ∈ recipients) ∧
    (∀ c S', S' ≠ sessionId ev → c ∈ room_members S' (rooms w) →
             c ∉ room_members (sessionId ev) (rooms w) → c ∉ recipients).
Proof.
  intros r. subst r. rewrite emits_chatMessage_event.
  exists (messageData ev), (elements (room_members (sessionId ev) (rooms w))).
  split; [done|]. split; [done|]. split; [done|].
  split; [apply NoDup_elements|].
  split; [intros c; apply elem_of_elements|].
  split; [intros H; by apply elem_of_elements|].
  intros c S' _ _ Hc Hin. by apply Hc, elem_of_elements.
Qed.

(** ** The push dispatch *)

Section Strings.

Lemma startsWith_spec p s : startsWith p s = true ↔ ∃ rest, s = p ++ rest.
Proof.
  revert s. induction p as [|a p IH]; intros s.
  - split; [intros _; by exists s|done].
  - destruct s as [|b s]; cbn [startsWith].
    + split; [done|]. by intros (rest & Hrest).
    + destruct (N.eqb_spec a b) as [->|Hne]; cbn [andb].
      * rewrite IH. split; intros (rest & Hrest); exists rest; cbn in *; congruence.
      * split; [done|]. intros (rest & Hrest). cbn in Hrest. congruence.
Qed.

Lemma or_else_nonempty s d : s ≠ [] → or_else s d = s.
Proof. by destruct s. Qed.

(** A literal is as long as it has characters, and two literals are joined
    by joining their code units. *)
Lemma js_app a b : js (a +:+ b) = js a ++ js b.
Proof.
  unfold js. induction a as [|c a IH]; [done|].
  change (String c a +:+ b) with (String c (a +:+ b)). cbn. by f_equal.
Qed.

Lemma js_length a : length (js a) = String.length a.
Proof. unfold js. induction a as [|c a IH]; [done|]. cbn. by f_equal. Qed.

End Strings.

Lemma sends_app t1 t2 : sends (t1 ++ t2) = sends t1 ++ sends t2.
Proof. apply omap_app. Qed.

Lemma elem_of_sends sub payload t :
  (sub, payload) ∈ sends t ↔ SendNotification sub payload ∈ t.
Proof.
  unfold sends. rewrite list_elem_of_omap. split.
  - intros (e & He & Heq). destruct e; try done. by simplify_eq.
  - intros H. by exists (SendNotification sub payload).
Qed.

Lemma sends_persist_trace env ev : sends (persist_trace env ev) = [].
Proof. unfold persist_trace. by destruct (Message_save_settles env). Qed.

Lemma sends_settle_trace env (subs : list Subscription) :
  sends (concat (settle_trace env <$> subs)) = [].
Proof.
  induction subs as [|sub subs IH]; [done|].
  rewrite fmap_cons, concat_cons, sends_app, IH, app_nil_r.
  unfold settle_trace.
  destruct (sendNotification_settles env sub) as [|err]; [done|].
  destruct (gone err); [|done].
  by destruct (Subscription_deleteOne_settles env (endpoint sub)).
Qed.

Lemma sends_fmap payload (subs : list Subscription) :
  sends ((λ sub, SendNotification sub payload) <$> subs) = (λ sub, (sub, payload)) <$> subs.
Proof. induction subs as [|sub subs IH]; [done|]. cbn. by f_equal. Qed.

(** The sends of one event: none when the query is rejected, otherwise one
    per document the query returns, in order and with one payload. *)
Lemma sends_chatMessage_event BASE_URL env socket ev w :
  sends (trace_of (chatMessage_event BASE_URL env socket ev w)) =
  match Subscription_find_settles env with
  | Resolves =>
      (λ sub, (sub, JSON_stringify (notification BASE_URL ev)))
        <$> find_by_session (sessionId ev) (subscriptions w)
  | Rejects _ => []
  end.
Proof.
  rewrite chatMessage_event_run. unfold trace_of; cbn [snd].
  rewrite sends_app, sends_persist_trace. cbn. unfold dispatch_trace.
  change (sends (?x :: ?t)) with (sends t).
  destruct (Subscription_find_settles env); [|done].
  cbn zeta. by rewrite sends_app, sends_settle_trace, app_nil_r, sends_fmap.
Qed.

Lemma notification_members BASE_URL ev :
  let p := JSON_stringify (notification BASE_URL ev) in
  member "title" p = Some (js "New message from " ++ sender ev) ∧
  member "body" p = Some (or_else (slice 0 100 (text ev)) "Sent an attachment") ∧
  member "icon" p = (if startsWith "image/" (fileType ev) then Some (fileUrl ev) else None) ∧
  member "url" p = Some (BASE_URL ++ js "/chat/" ++ sessionId ev).
Proof.
  unfold notification, JSON_stringify. cbn [omap list_omap fst snd].
  destruct (startsWith "image/" (fileType ev)); repeat split; reflexivity.
Qed.

(** C4: every notification an event sends has as body the first 100
    characters of the text when the text is longer, the whole text when it
    has 1 to 100 characters, and "Sent an attachment" when the text is empty;
    it has an icon exactly when the file type starts with "image/", and the
    icon is then the file URL; its url is BASE_URL/chat/ followed by the
    session id; its title names the sender.  Characters are counted as
    [text.slice(0, 100)] counts them, in UTF-16 code units. *)
Theorem C4_notification_payload BASE_URL env socket ev w sub payload :
  SendNotification sub payload ∈ trace_of (chatMessage_event BASE_URL env socket ev w) →
  ((100 < length (text ev))%nat →
     ∃ first rest, text ev = first ++ rest ∧ length first = 100 ∧
                   member "body" payload = Some first) ∧
  ((1 ≤ length (text ev) ≤ 100)%nat → member "body" payload = Some (text ev)) ∧
  (text ev = [] → member "body" payload = Some (js "Sent an attachment")) ∧
  (is_Some (member "icon" payload) ↔ ∃ subtype, fileType ev = js "image/" ++ subtype) ∧
  (∀ icon, member "icon" payload = Some icon → icon = fileUrl ev) ∧
  member "url" payload = Some (BASE_URL ++ js "/chat/" ++ sessionId ev) ∧
  member "title" payload = Some (js "New message from " ++ sender ev).
Proof.
  intros Hsent. apply elem_of_sends in Hsent.
  rewrite sends_chatMessage_event in Hsent.
  destruct (Subscription_find_settles env); [|by apply elem_of_nil in Hsent].
  apply list_elem_of_fmap in Hsent as (sub' & Heq & _).
  assert (payload = JSON_stringify (notification BASE_URL ev)) as -> by congruence.
  clear sub' Heq.
  destruct (notification_members BASE_URL ev) as (-> & -> & -> & ->).
  rewrite <- startsWith_spec. unfold slice. replace (100 - 0) with 100 by lia.
  rewrite drop_0.
  split; [|split; [|split; [|split; [|split]]]].
  - intros Hlong. exists (take 100 (text ev)), (drop 100 (text ev)).
    assert (Hlen : length (take 100 (text ev)) = 100) by (rewrite length_take; lia).
    split; [by rewrite take_drop|]. split; [done|].
    rewrite or_else_nonempty; [done|].
    intros H0. rewrite H0 in Hlen. cbn in Hlen. lia.
  - intros [Hlo Hhi]. rewrite take_ge by lia.
    rewrite or_else_nonempty; [done|].
    intros H0. rewrite H0 in Hlo. cbn in Hlo. lia.
  - by intros ->.
  - destruct (startsWith "image/" (fileType ev)); split; done || by intros [? ?].
  - destruct (startsWith "image/" (fileType ev)); [|done].
    by intros icon [= <-].
  - done.
Qed.

Lemma C4_witness :
  let payload := JSON_stringify (notification base0 photo) in
  SendNotification sub_E1 payload
    ∈ trace_of (chatMessage_event base0 env_ok "A" photo world0) ∧
  ((100 < length (text photo))%nat →
     ∃ first rest, text photo = first ++ rest ∧ length first = 100 ∧
                   member "body" payload = Some first) ∧
  ((1 ≤ length (text photo) ≤ 100)%nat → member "body" payload = Some (text photo)) ∧
  (text photo = [] → member "body" payload = Some (js "Sent an attachment")) ∧
  (is_Some (member "icon" payload) ↔ ∃ subtype, fileType photo = js "image/" ++ subtype) ∧
  (∀ icon, member "icon" payload = Some icon → icon = fileUrl photo) ∧
  member "url" payload = Some (base0 ++ js "/chat/" ++ sessionId photo) ∧
  member "title" payload = Some (js "New message from " ++ sender photo).
Proof.
  assert (Hsent : SendNotification sub_E1 (JSON_stringify (notification base0 photo))
                    ∈ trace_of (chatMessage_event base0 env_ok "A" photo world0)).
  { apply list_elem_of_In. vm_compute. auto 10. }
  split; [exact Hsent|].
  exact (C4_notification_payload base0 env_ok "A" photo world0 sub_E1 _ Hsent).
Defined.

Lemma filter_eq_length_NoDup `{EqDecision A} (x : A) (l : list A) :
  NoDup l → x ∈ l → length (filter (λ y, y = x) l) = 1.
Proof.
  induction 1 as [|y l Hy Hl IH]; intros Hx; [by apply elem_of_nil in Hx|].
  destruct (decide (y = x)) as [->|Hne].
  - rewrite filter_cons_True by done. cbn. f_equal.
    clear IH Hl Hx. induction l as [|z l IH]; [done|].
    apply not_elem_of_cons in Hy as [Hz Hl].
    rewrite filter_cons_False by done. by apply IH.
  - rewrite filter_cons_False by done. apply IH.
    apply elem_of_cons in Hx as [->|Hx]; done.
Qed.

Lemma filter_attempts payload (sub : Subscription) (l : list Subscription) :
  length (filter (λ a : Subscription * list (string * JsString), a.1 = sub)
                 ((λ s, (s, payload)) <$> l))
  = length (filter (λ y, y = sub) l).
Proof.
  induction l as [|y l IH]; [done|]. rewrite fmap_cons.
  destruct (decide (y = sub)) as [->|Hne].
  - rewrite !filter_cons_True by done. cbn. by f_equal.
  - by rewrite !filter_cons_False by done.
Qed.

Lemma unique_endpoints_NoDup (l : list Subscription) : unique_endpoints l → NoDup l.
Proof. apply NoDup_fmap_1. Qed.

Lemma unique_endpoints_inj (l : list Subscription) s s' :
  unique_endpoints l → s ∈ l → s' ∈ l → endpoint s = endpoint s' → s = s'.
Proof.
  induction l as [|s0 l IH]; [intros _ H; by apply elem_of_nil in H|].
  rewrite unique_endpoints_cons. intros [Hs0 Hl].
  rewrite !elem_of_cons. intros [->|Hs] [->|Hs'] Heq; try done.
  - symmetry in Heq. by apply Hs0 in Heq.
  - by apply Hs0 in Heq.
  - by apply IH.
Qed.

(** C5, amended: when the subscription query of an event for S is answered,
    the sends of the event are, in order, one per Subscription recorded for
    S, all with the one payload built from the event; under the unique index
    each recorded Subscription is the target of exactly one send; and the
    sends are the same however the sends themselves and the deletes settle. *)
Theorem C5_one_attempt_per_subscription_when_query_answers
    BASE_URL env socket ev w :
  Subscription_find_settles env = Resolves →
  let recorded := find_by_session (sessionId ev) (subscriptions w) in
  let payload := JSON_stringify (notification BASE_URL ev) in
  let attempts := sends (trace_of (chatMessage_event BASE_URL env socket ev w)) in
  attempts = (λ sub, (sub, payload)) <$> recorded ∧
  (unique_endpoints (subscriptions w) →
     ∀ sub, sub ∈ recorded → length (filter (λ a, a.1 = sub) attempts) = 1) ∧
  (∀ del send,
     sends (trace_of (chatMessage_event BASE_URL
              (mkEnv (Date_now env) (Message_save_settles env) Resolves
                     (Subscription_update_settles env) del send)
              socket ev w)) = attempts).
Proof.
  intros Hfind recorded payload attempts. subst attempts.
  rewrite sends_chatMessage_event, Hfind. fold recorded payload.
  split; [done|]. split.
  - intros Huniq sub Hsub. rewrite filter_attempts.
    apply filter_eq_length_NoDup; [|done].
    apply NoDup_filter. by apply unique_endpoints_NoDup.
  - intros del send. by rewrite sends_chatMessage_event.
Qed.

Lemma C5_witness :
  Subscription_find_settles env_ok = Resolves ∧
  let recorded := find_by_session "abc" (subscriptions world0) in
  let payload := JSON_stringify (notification base0 hello) in
  let attempts := sends (trace_of (chatMessage_event base0 env_ok "A" hello world0)) in
  attempts = (λ sub, (sub, payload)) <$> recorded ∧
  (unique_endpoints (subscriptions world0) →
     ∀ sub, sub ∈ recorded → length (filter (λ a, a.1 = sub) attempts) = 1) ∧
  (∀ del send,
     sends (trace_of (chatMessage_event base0
              (mkEnv 0 Resolves Resolves Resolves del send) "A" hello world0)) = attempts).
Proof.
  split; [reflexivity|].
  exact (C5_one_attempt_per_subscription_when_query_answers
           base0 env_ok "A" hello world0 eq_refl).
Defined.

(** C5 as stated fails: E1 and E2 are recorded for "abc", the store rejects
    the subscription query of an event for "abc", and the event makes no
    delivery attempt at all; the rejection is logged. *)
Lemma C5_counterexample :
  find_by_session "abc" (subscriptions world0) = [sub_E1; sub_E2] ∧
  sends (trace_of (chatMessage_event base0 env_find_fails "A" hello world0)) = [] ∧
  trace_of (chatMessage_event base0 env_find_fails "A" hello world0) =
    [ MessageSave hello;
      SocketEmit "abc" "chatMessage" (messageData hello) ["A"; "B"];
      SubscriptionFind "abc";
      ConsoleError "Error sending push notifications:" ].
Proof. repeat split; vm_compute; reflexivity. Qed.

(** ** Pruning *)

Lemma gone_spec err :
  gone err = true ↔ statusCode err = Some 404%Z ∨ statusCode err = Some 410%Z.
Proof.
  unfold gone. destruct (statusCode err) as [c|].
  - rewrite orb_true_iff, !Z.eqb_eq. split.
    + intros [->| ->]; auto.
    + intros [[= ->]|[= ->]]; auto.
  - split; [done|]. by intros [?|?].
Qed.

Lemma elem_of_concat_settle e env (subs : list Subscription) :
  e ∈ concat (settle_trace env <$> subs) ↔
  ∃ sub, sub ∈ subs ∧ e ∈ settle_trace env sub.
Proof.
  induction subs as [|s subs IH].
  - split; [intros H; by apply elem_of_nil in H|].
    intros (sub & H & _). by apply elem_of_nil in H.
  - rewrite fmap_cons, concat_cons, elem_of_app, IH. split.
    + intros [H|(sub & Hsub & H)].
      * exists s. split; [apply list_elem_of_here|done].
      * exists sub. split; [by apply list_elem_of_further|done].
    + intros (sub & Hsub & H). apply elem_of_cons in Hsub as [->|Hsub]; eauto.
Qed.

(** Where a delete can come from: a send of this dispatch that was rejected
    as gone. *)
Lemma elem_of_trace_deleteOne BASE_URL env socket ev w e :
  SubscriptionDeleteOne e ∈ trace_of (chatMessage_event BASE_URL env socket ev w) →
  ∃ sub err, sub ∈ find_by_session (sessionId ev) (subscriptions w) ∧
             endpoint sub = e ∧
             sendNotification_settles env sub = Rejects err ∧ gone err = true.
Proof.
  rewrite chatMessage_event_run. unfold trace_of; cbn [snd].
  rewrite elem_of_app, elem_of_cons. intros [H|[H|H]].
  - unfold persist_trace in H. destruct (Message_save_settles env);
      repeat (apply elem_of_cons in H as [H|H]; [done|]); by apply elem_of_nil in H.
  - done.
  - unfold dispatch_trace in H. apply elem_of_cons in H as [H|H]; [done|].
    destruct (Subscription_find_settles env).
    + cbn zeta in H. apply elem_of_app in H as [H|H].
      * apply list_elem_of_fmap in H as (? & ? & _). done.
      * apply elem_of_concat_settle in H as (sub & Hsub & H).
        unfold settle_trace in H.
        destruct (sendNotification_settles env sub) as [|err] eqn:Hsend;
          [by apply elem_of_nil in H|].
        destruct (gone err) eqn:Hgone.
        -- exists sub, err. apply elem_of_cons in H as [[= ->]|H]; [done|].
           destruct (Subscription_deleteOne_settles env (endpoint sub));
             [by apply elem_of_nil in H|].
           apply list_elem_of_singleton in H. done.
        -- apply list_elem_of_singleton in H. done.
    + apply list_elem_of_singleton in H. done.
Qed.

Lemma elem_of_trace_settle BASE_URL env socket ev w sub e :
  Subscription_find_settles env = Resolves →
  sub ∈ find_by_session (sessionId ev) (subscriptions w) →
  e ∈ settle_trace env sub →
  e ∈ trace_of (chatMessage_event BASE_URL env socket ev w).
Proof.
  intros Hfind Hsub He. rewrite chatMessage_event_run. unfold trace_of; cbn [snd].
  apply elem_of_app. right. do 2 apply list_elem_of_further.
  rewrite Hfind. cbn zeta. apply elem_of_app. right.
  apply elem_of_concat_settle. eauto.
Qed.

Lemma targeted_spec BASE_URL env socket ev w sub payload :
  SendNotification sub payload ∈ trace_of (chatMessage_event BASE_URL env socket ev w) ↔
  Subscription_find_settles env = Resolves ∧
  sub ∈ find_by_session (sessionId ev) (subscriptions w) ∧
  payload = JSON_stringify (notification BASE_URL ev).
Proof.
  rewrite <- elem_of_sends, sends_chatMessage_event.
  destruct (Subscription_find_settles env) as [|err].
  - rewrite list_elem_of_fmap. split.
    + intros (sub' & Heq & Hin). split; [done|]. split; congruence.
    + intros (_ & Hin & ->). eauto.
  - split; [intros H; by apply elem_of_nil in H|]. by intros [? _].
Qed.

Lemma subscriptions_chatMessage_event BASE_URL env socket ev w :
  subscriptions (world_of (chatMessage_event BASE_URL env socket ev w)) =
  dispatch_store env ev (subscriptions w).
Proof. by rewrite chatMessage_event_run. Qed.

Lemma dispatch_store_subseteq env ev (l : list Subscription) :
  dispatch_store env ev l ⊆ l.
Proof.
  unfold dispatch_store. destruct (Subscription_find_settles env); [|done].
  apply settle_subseteq.
Qed.

(** Chat events never send to an endpoint that has no document. *)
Lemma no_sends_to_absent_endpoint BASE_URL e later w :
  (∀ s, s ∈ subscriptions w → endpoint s ≠ e) →
  Forall (λ a, endpoint a.1 ≠ e) (sends (chatMessage_events BASE_URL later w).2).
Proof.
  revert w. induction later as [|[[env socket] ev] later IH]; intros w Habs; cbn.
  - constructor.
  - rewrite sends_app. apply Forall_app. split.
    + apply Forall_forall. intros [sub payload] Hin. cbn.
      apply elem_of_sends, targeted_spec in Hin as (_ & Hin & _).
      apply elem_of_find_by_session in Hin as [Hin _]. by apply Habs.
    + apply IH. intros s Hs. apply Habs.
      rewrite subscriptions_chatMessage_event in Hs.
      by apply dispatch_store_subseteq in Hs.
Qed.

Lemma dispatch_store_retains env ev (l : list Subscription) sub :
  unique_endpoints l → sub ∈ l → prunes env sub = false →
  sub ∈ dispatch_store env ev l.
Proof.
  intros Huniq Hin Hkeep. unfold dispatch_store.
  destruct (Subscription_find_settles env); [|done].
  apply elem_of_settle; [done|]. split; [done|].
  intros sub' Hsub' Hp Heq.
  apply elem_of_find_by_session in Hsub' as [Hsub' _].
  assert (sub = sub') as -> by eauto using unique_endpoints_inj.
  congruence.
Qed.

Lemma dispatch_store_prunes env ev (l : list Subscription) sub :
  unique_endpoints l →
  Subscription_find_settles env = Resolves →
  sub ∈ find_by_session (sessionId ev) l →
  prunes env sub = true →
  ∀ s, s ∈ dispatch_store env ev l → endpoint s ≠ endpoint sub.
Proof.
  intros Huniq Hfind Hsub Hp s Hs. unfold dispatch_store in Hs.
  rewrite Hfind in Hs. apply elem_of_settle in Hs as [_ Hs]; [|done].
  by apply Hs.
Qed.

(** C3, amended: let a send of an event to [sub] be rejected.  With status
    code 404 or 410 a delete by the endpoint of [sub] is issued; when the
    store performs it no document with that endpoint is left and no later
    chat event sends to that endpoint; when the store rejects it, only the
    rejection is logged and [sub] stays stored.  With any other rejection
    the failure is logged, no delete is issued for the endpoint, [sub] stays
    stored and is recorded for the session as before, and the next event for
    the session whose query is answered sends to it; an event whose query is
    rejected sends to no subscription at all. *)
Theorem C3_gone_is_pruned_if_store_deletes_other_failures_retain
    BASE_URL env socket ev w sub payload err :
  unique_endpoints (subscriptions w) →
  SendNotification sub payload ∈ trace_of (chatMessage_event BASE_URL env socket ev w) →
  sendNotification_settles env sub = Rejects err →
  let r := chatMessage_event BASE_URL env socket ev w in
  let w' := world_of r in
  ((statusCode err = Some 404%Z ∨ statusCode err = Some 410%Z) →
     SubscriptionDeleteOne (endpoint sub) ∈ trace_of r ∧
     (Subscription_deleteOne_settles env (endpoint sub) = Resolves →
        (∀ s, s ∈ subscriptions w' → endpoint s ≠ endpoint sub) ∧
        (∀ later, Forall (λ a, endpoint a.1 ≠ endpoint sub)
                         (sends (chatMessage_events BASE_URL later w').2))) ∧
     (∀ e, Subscription_deleteOne_settles env (endpoint sub) = Rejects e →
        ConsoleError (message e) ∈ trace_of r ∧ sub ∈ subscriptions w')) ∧
  (statusCode err ≠ Some 404%Z → statusCode err ≠ Some 410%Z →
     ConsoleError "Push error:" ∈ trace_of r ∧
     (SubscriptionDeleteOne (endpoint sub) ∉ trace_of r) ∧
     sub ∈ subscriptions w' ∧
     sub ∈ find_by_session (sessionId ev) (subscriptions w') ∧
     (∀ env' socket' ev',
        sessionId ev' = sessionId ev →
        Subscription_find_settles env' = Resolves →
        SendNotification sub (JSON_stringify (notification BASE_URL ev'))
          ∈ trace_of (chatMessage_event BASE_URL env' socket' ev' w')) ∧
     (∀ env' socket' ev' e,
        Subscription_find_settles env' = Rejects e →
        sends (trace_of (chatMessage_event BASE_URL env' socket' ev' w')) = [])).
Proof.
  intros Huniq Hsent Hrej r w'.
  apply targeted_spec in Hsent as (Hfind & Hsub & _).
  pose proof Hsub as Hsub'. apply elem_of_find_by_session in Hsub' as [Hin Hsid].
  assert (Hw' : subscriptions w' = dispatch_store env ev (subscriptions w))
    by apply subscriptions_chatMessage_event.
  split.
  - intros Hgone. apply gone_spec in Hgone. split; [|split].
    + apply (elem_of_trace_settle _ _ _ _ _ sub); try done.
      unfold settle_trace. rewrite Hrej, Hgone. apply list_elem_of_here.
    + intros Hdel.
      assert (Hp : prunes env sub = true) by (unfold prunes; by rewrite Hrej, Hgone, Hdel).
      assert (Habs : ∀ s, s ∈ subscriptions w' → endpoint s ≠ endpoint sub).
      { rewrite Hw'. by apply dispatch_store_prunes. }
      split; [done|]. intros later. by apply no_sends_to_absent_endpoint.
    + intros e Hdel. split.
      * apply (elem_of_trace_settle _ _ _ _ _ sub); try done.
        unfold settle_trace. rewrite Hrej, Hgone, Hdel.
        apply list_elem_of_further, list_elem_of_here.
      * rewrite Hw'. apply dispatch_store_retains; try done.
        unfold prunes. by rewrite Hrej, Hgone, Hdel.
  - intros H404 H410.
    assert (Hgone : gone err = false).
    { destruct (gone err) eqn:Hg; [|done]. apply gone_spec in Hg as [?|?]; done. }
    assert (Hkept : sub ∈ subscriptions w').
    { rewrite Hw'. apply dispatch_store_retains; try done.
      unfold prunes. by rewrite Hrej, Hgone. }
    split; [|split; [|split; [|split; [|split]]]].
    + apply (elem_of_trace_settle _ _ _ _ _ sub); try done.
      unfold settle_trace. rewrite Hrej, Hgone. apply list_elem_of_here.
    + intros Hdel. apply elem_of_trace_deleteOne in Hdel
        as (sub' & err' & Hsub' & Heq & Hrej' & Hgone').
      apply elem_of_find_by_session in Hsub' as [Hin' _].
      assert (sub' = sub) as -> by eauto using unique_endpoints_inj.
      congruence.
    + done.
    + by apply elem_of_find_by_session.
    + intros env' socket' ev' Hsame Hfind'. apply targeted_spec.
      split; [done|]. split; [|done].
      apply elem_of_find_by_session. by rewrite Hsame.
    + intros env' socket' ev' e Hfind'.
      by rewrite sends_chatMessage_event, Hfind'.
Qed.

Lemma C3_witness :
  let env := env_push_fails 410 Resolves in
  let payload := JSON_stringify (notification base0 hello) in
  let err := http_error 410 in
  unique_endpoints (subscriptions world0) ∧
  SendNotification sub_E1 payload ∈ trace_of (chatMessage_event base0 env "A" hello world0) ∧
  sendNotification_settles env sub_E1 = Rejects err ∧
  let r := chatMessage_event base0 env "A" hello world0 in
  let w' := world_of r in
  ((statusCode err = Some 404%Z ∨ statusCode err = Some 410%Z) →
     SubscriptionDeleteOne (endpoint sub_E1) ∈ trace_of r ∧
     (Subscription_deleteOne_settles env (endpoint sub_E1) = Resolves →
        (∀ s, s ∈ subscriptions w' → endpoint s ≠ endpoint sub_E1) ∧
        (∀ later, Forall (λ a, endpoint a.1 ≠ endpoint sub_E1)
                         (sends (chatMessage_events base0 later w').2))) ∧
     (∀ e, Subscription_deleteOne_settles env (endpoint sub_E1) = Rejects e →
        ConsoleError (message e) ∈ trace_of r ∧ sub_E1 ∈ subscriptions w')) ∧
  (statusCode err ≠ Some 404%Z → statusCode err ≠ Some 410%Z →
     ConsoleError "Push error:" ∈ trace_of r ∧
     (SubscriptionDeleteOne (endpoint sub_E1) ∉ trace_of r) ∧
     sub_E1 ∈ subscriptions w' ∧
     sub_E1 ∈ find_by_session (sessionId hello) (subscriptions w') ∧
     (∀ env' socket' ev',
        sessionId ev' = sessionId hello →
        Subscription_find_settles env' = Resolves →
        SendNotification sub_E1 (JSON_stringify (notification base0 ev'))
          ∈ trace_of (chatMessage_event base0 env' socket' ev' w')) ∧
     (∀ env' socket' ev' e,
        Subscription_find_settles env' = Rejects e →
        sends (trace_of (chatMessage_event base0 env' socket' ev' w')) = [])).
Proof.
  pose proof world0_unique_endpoints as Huniq.
  assert (Hsent : SendNotification sub_E1 (JSON_stringify (notification base0 hello))
            ∈ trace_of (chatMessage_event base0 (env_push_fails 410 Resolves) "A" hello world0)).
  { apply list_elem_of_In. vm_compute. auto 10. }
  split; [exact Huniq|]. split; [exact Hsent|]. split; [reflexivity|].
  exact (C3_gone_is_pruned_if_store_deletes_other_failures_retain
           base0 (env_push_fails 410 Resolves) "A" hello world0 sub_E1 _
           (http_error 410) Huniq Hsent eq_refl).
Defined.

(** C3 as stated fails: the send to E1 is answered 410, the delete that
    follows is rejected by the store, which is only logged; E1 is still
    stored after the event and the next event for "abc" sends to it again.
    And after a send to E1 answered 429, E1 is kept, yet the next event for
    "abc" makes no attempt for it when its query is rejected. *)
Lemma C3_counterexample :
  let env := env_push_fails 410 (Rejects store_down) in
  let payload := JSON_stringify (notification base0 hello) in
  let r := chatMessage_event base0 env "A" hello world0 in
  let r429 := chatMessage_event base0 (env_push_fails 429 Resolves) "A" hello world0 in
  sendNotification_settles env sub_E1 = Rejects (http_error 410) ∧
  trace_of r =
    [ MessageSave hello;
      SocketEmit "abc" "chatMessage" (messageData hello) ["A"; "B"];
      SubscriptionFind "abc";
      SendNotification sub_E1 payload;
      SendNotification sub_E2 payload;
      SubscriptionDeleteOne "E1";
      ConsoleError "store unavailable" ] ∧
  subscriptions (world_of r) = [sub_E1; sub_E2; sub_E3] ∧
  sends (trace_of (chatMessage_event base0 env_ok "B" hello (world_of r))) =
    [ (sub_E1, payload); (sub_E2, payload) ] ∧
  subscriptions (world_of r429) = [sub_E1; sub_E2; sub_E3] ∧
  sends (trace_of (chatMessage_event base0 env_find_fails "B" hello (world_of r429))) = [].
Proof. repeat split; vm_compute; reflexivity. Qed.

(** ** Registration *)

Lemma save_subscription_run env sub w :
  save_subscription env sub w =
  match body_endpoint sub, body_keys sub with
  | Some e, Some k =>
      let doc := mkSubscription e k (body_sessionId sub) in
      if decide (e = []) then
        (Returned (StatusJson 400 "Invalid subscription payload."), w, [])
      else
        match Subscription_update_settles env with
        | Resolves =>
            (Returned (SendStatus 201),
             mkWorld (messages w) (find_one_and_update e doc (subscriptions w)) (rooms w),
             [SubscriptionFindOneAndUpdate e doc])
        | Rejects _ =>
            (Returned (StatusJson 500 "Failed to save subscription"), w,
             [SubscriptionFindOneAndUpdate e doc; ConsoleError "Saving subscription failed"])
        end
  | _, _ => (Returned (StatusJson 400 "Invalid subscription payload."), w, [])
  end.
Proof.
  unfold save_subscription, falsy_string, falsy_object.
  destruct (body_endpoint sub) as [e|], (body_keys sub) as [k|]; try reflexivity.
  - destruct (decide (e = [])); [reflexivity|]. cbn.
    unfold try_catch, mbind, M_bind, Subscription_findOneAndUpdate.
    destruct (Subscription_update_settles env); reflexivity.
  - by destruct (decide (e = [])).
Qed.

(** C7: a registration request whose body has no endpoint or no keys is
    answered 400 with the error "Invalid subscription payload."; the world is
    unchanged and the store is not called at all. *)
Theorem C7_missing_endpoint_or_keys_is_rejected env sub w :
  body_endpoint sub = None ∨ body_keys sub = None →
  save_subscription env sub w =
  (Returned (StatusJson 400 "Invalid subscription payload."), w, []).
Proof.
  intros Hmissing. rewrite save_subscription_run.
  destruct Hmissing as [-> | ->]; [done|]. by destruct (body_endpoint sub).
Qed.

Lemma C7_witness :
  (body_endpoint body_no_endpoint = None ∨ body_keys body_no_endpoint = None) ∧
  save_subscription env_ok body_no_endpoint world0 =
  (Returned (StatusJson 400 "Invalid subscription payload."), world0, []).
Proof.
  split; [left; reflexivity|].
  exact (C7_missing_endpoint_or_keys_is_rejected env_ok body_no_endpoint world0
           (or_introl eq_refl)).
Defined.

(** C10: the request is answered with the 400 validation error exactly when
    its endpoint is absent or the empty string, or its keys are absent.  A
    body with a non-empty endpoint and any keys object, whatever members the
    object has and whether or not a session id is given, reaches the store:
    the answer is 201 when the store accepts the update and 500, with the
    store left as it was, when it rejects it. *)
Theorem C10_validation_checks_presence_only env sub w :
  let r := save_subscription env sub w in
  (outcome_of r = Returned (StatusJson 400 "Invalid subscription payload.") ↔
     body_endpoint sub = None ∨ body_endpoint sub = Some [] ∨ body_keys sub = None) ∧
  (∀ e k, body_endpoint sub = Some e → e ≠ [] → body_keys sub = Some k →
     (∃ rest, trace_of r =
        SubscriptionFindOneAndUpdate e (mkSubscription e k (body_sessionId sub)) :: rest) ∧
     match Subscription_update_settles env with
     | Resolves => outcome_of r = Returned (SendStatus 201)
     | Rejects _ =>
         outcome_of r = Returned (StatusJson 500 "Failed to save subscription") ∧
         world_of r = w
     end).
Proof.
  intros r. subst r. rewrite save_subscription_run. split.
  - destruct (body_endpoint sub) as [e|], (body_keys sub) as [k|]; cbn;
      try (split; [intros _|done]; auto).
    destruct (decide (e = [])) as [->|Hne]; cbn.
    + split; [intros _|done]; auto.
    + split.
      * by destruct (Subscription_update_settles env).
      * intros [?|[[= ?]|?]]; done.
  - intros e k -> Hne ->. cbn zeta.
    destruct (decide (e = [])); [done|].
    destruct (Subscription_update_settles env); cbn; eauto.
Qed.

Lemma filter_endpoint_unique (l : list Subscription) s :
  unique_endpoints l → s ∈ l →
  filter (λ x, endpoint x = endpoint s) l = [s].
Proof.
  induction l as [|s0 l IH]; [intros _ H; by apply elem_of_nil in H|].
  rewrite unique_endpoints_cons. intros [Hs0 Hl] Hin.
  apply elem_of_cons in Hin as [->|Hin].
  - rewrite filter_cons_True by done. f_equal.
    clear IH Hl. induction l as [|x l IH]; [done|].
    rewrite filter_cons_False.
    + apply IH. intros s' Hs'. apply Hs0. by apply list_elem_of_further.
    + apply Hs0, list_elem_of_here.
  - rewrite filter_cons_False; [by apply IH|].
    intros Heq. by apply (Hs0 s).
Qed.

Lemma unique_endpoints_save_subscription env sub w :
  unique_endpoints (subscriptions w) →
  unique_endpoints (subscriptions (world_of (save_subscription env sub w))).
Proof.
  intros Huniq. rewrite save_subscription_run.
  destruct (body_endpoint sub) as [e|], (body_keys sub) as [k|]; try done.
  cbn zeta. destruct (decide (e = [])); [done|].
  destruct (Subscription_update_settles env); [|done].
  by apply (unique_endpoints_find_one_and_update (mkSubscription e k (body_sessionId sub))).
Qed.

Lemma unique_endpoints_chatMessage_event BASE_URL env socket ev w :
  unique_endpoints (subscriptions w) →
  unique_endpoints (subscriptions (world_of (chatMessage_event BASE_URL env socket ev w))).
Proof.
  intros Huniq. rewrite subscriptions_chatMessage_event. unfold dispatch_store.
  destruct (Subscription_find_settles env); [|done].
  by apply unique_endpoints_settle.
Qed.

(** C8: endpoints are unique in the store, and stay unique through every
    registration request and every chat event.  A request registers, that
    is, it is answered 201, exactly when it has a non-empty endpoint and
    keys and the store performs the update.  Such a request makes the one
    call [findOneAndUpdate] and leaves exactly one document with its
    endpoint, carrying the keys and the session id of the request; the other
    documents are untouched; when the endpoint was already stored the number
    of documents is unchanged, and when it was not, the new document is the
    one addition. *)
Theorem C8_upsert_by_endpoint env sub w :
  unique_endpoints (subscriptions w) →
  let l := subscriptions w in
  let r := save_subscription env sub w in
  let l' := subscriptions (world_of r) in
  unique_endpoints l' ∧
  (∀ BASE_URL env' socket ev,
     unique_endpoints
       (subscriptions (world_of (chatMessage_event BASE_URL env' socket ev w)))) ∧
  (outcome_of r = Returned (SendStatus 201) ↔
     ∃ e k, body_endpoint sub = Some e ∧ e ≠ [] ∧ body_keys sub = Some k ∧
            Subscription_update_settles env = Resolves) ∧
  (∀ e k, body_endpoint sub = Some e → e ≠ [] → body_keys sub = Some k →
     Subscription_update_settles env = Resolves →
     let doc := mkSubscription e k (body_sessionId sub) in
     outcome_of r = Returned (SendStatus 201) ∧
     trace_of r = [SubscriptionFindOneAndUpdate e doc] ∧
     filter (λ s, endpoint s = e) l' = [doc] ∧
     (∀ s, endpoint s ≠ e → s ∈ l' ↔ s ∈ l) ∧
     (e ∈ endpoint <$> l → length l' = length l) ∧
     (e ∉ endpoint <$> l → l' = l ++ [doc])).
Proof.
  intros Huniq l r l'.
  split; [by apply unique_endpoints_save_subscription|].
  split; [intros; by apply unique_endpoints_chatMessage_event|].
  assert (Huniq' : unique_endpoints l') by by apply unique_endpoints_save_subscription.
  subst r l'. revert Huniq'. rewrite save_subscription_run. intros Huniq'. split.
  - destruct (body_endpoint sub) as [e|], (body_keys sub) as [k|]; cbn zeta;
      try (split; [done|by intros (? & ? & ? & ? & ? & ?)]).
    destruct (decide (e = [])) as [->|Hne].
    + split; [done|]. by intros (? & ? & [= <-] & ? & _).
    + destruct (Subscription_update_settles env).
      * split; [intros _; by exists e, k|done].
      * split; [done|]. by intros (? & ? & _ & _ & _ & ?).
  - intros e k He Hne Hk Hupd. revert Huniq'. rewrite He, Hk. cbn zeta.
    rewrite decide_False by done. rewrite Hupd.
    unfold outcome_of, world_of, trace_of; cbn [fst snd subscriptions].
    intros Huniq'. set (doc := mkSubscription e k (body_sessionId sub)).
    split; [done|]. split; [done|]. split; [|split; [|split]].
    + apply (filter_endpoint_unique _ doc); [done|].
      apply elem_of_find_one_and_update.
    + intros s Hs. by apply find_one_and_update_others.
    + apply find_one_and_update_present.
    + apply find_one_and_update_fresh.
Qed.

Lemma C8_witness :
  let r := save_subscription env_ok body_rebind_E1 world0 in
  let doc := mkSubscription "E1" (mkKeys (Some (js "BPk2")) (Some (js "s3c2")))
                            (Some (js "xyz")) in
  unique_endpoints (subscriptions world0) ∧
  outcome_of r = Returned (SendStatus 201) ∧
  trace_of r = [SubscriptionFindOneAndUpdate "E1" doc] ∧
  filter (λ s, endpoint s = js "E1") (subscriptions (world_of r)) = [doc] ∧
  length (subscriptions (world_of r)) = length (subscriptions world0) ∧
  unique_endpoints (subscriptions (world_of r)).
Proof.
  pose proof world0_unique_endpoints as Huniq.
  destruct (C8_upsert_by_endpoint env_ok body_rebind_E1 world0 Huniq)
    as (Huniq' & _ & _ & Hreg).
  assert (Hne : js "E1" ≠ []) by discriminate.
  destruct (Hreg (js "E1") (mkKeys (Some (js "BPk2")) (Some (js "s3c2")))
                 eq_refl Hne eq_refl eq_refl)
    as (Hout & Htrace & Hone & _ & Hlen & _).
  split; [exact Huniq|]. split; [exact Hout|]. split; [exact Htrace|].
  split; [exact Hone|]. split; [|exact Huniq'].
  apply Hlen. apply list_elem_of_In. vm_compute. auto.
Defined.

(** ** Rooms *)

Lemma elem_of_join_room socket room r c :
  c ∈ room_members room (join_room socket room r) ↔ c = socket ∨ c ∈ room_members room r.
Proof.
  unfold room_members at 1, join_room. rewrite lookup_insert_eq. cbn.
  rewrite elem_of_union, elem_of_singleton. done.
Qed.

Lemma join_room_other socket room room' r :
  room ≠ room' → room_members room' (join_room socket room r) = room_members room' r.
Proof.
  intros Hne. unfold room_members at 1, join_room.
  by rewrite lookup_insert_ne.
Qed.

Lemma join_room_idempotent socket room r :
  join_room socket room (join_room socket room r) = join_room socket room r.
Proof.
  unfold join_room at 1.
  assert (room_members room (join_room socket room r) = {[socket]} ∪ room_members room r) as ->.
  { unfold room_members at 1, join_room. by rewrite lookup_insert_eq. }
  unfold join_room. rewrite insert_insert_eq. f_equal.
  apply set_eq. intros c. rewrite !elem_of_union. tauto.
Qed.

Lemma deliveries_to_app c t1 t2 :
  deliveries_to c (t1 ++ t2) = deliveries_to c t1 + deliveries_to c t2.
Proof.
  unfold deliveries_to. rewrite omap_app.
  induction (omap _ t1) as [|n ns IH]; [done|]. cbn. rewrite IH. lia.
Qed.

Lemma deliveries_to_none c t :
  Forall (λ e, is_emit e = false) t → deliveries_to c t = 0.
Proof.
  induction 1 as [|e t He _ IH]; [done|].
  change (e :: t) with ([e] ++ t). rewrite deliveries_to_app, IH.
  by destruct e.
Qed.

Lemma deliveries_to_chatMessage_event BASE_URL env socket ev w c :
  deliveries_to c (trace_of (chatMessage_event BASE_URL env socket ev w)) =
  length (filter (λ x, x = c) (elements (room_members (sessionId ev) (rooms w)))).
Proof.
  rewrite chatMessage_event_run. unfold trace_of; cbn [snd].
  rewrite deliveries_to_app, (deliveries_to_none _ _ (is_emit_persist_trace env ev)).
  change (broadcast ev w :: ?t) with ([broadcast ev w] ++ t).
  rewrite deliveries_to_app,
    (deliveries_to_none _ _ (is_emit_dispatch_trace BASE_URL env ev _)).
  unfold broadcast, deliveries_to. cbn. lia.
Qed.

(** C9: handling joinSession(S) a second time for the same socket leaves
    the world as the first left it; the socket is a member of room S, and a
    later chat event for S, whoever sends it and however its calls settle,
    delivers to the socket exactly once. *)
Theorem C9_joinSession_idempotent socket S w :
  let w1 := world_of (joinSession socket S w) in
  let w2 := world_of (joinSession socket S w1) in
  w2 = w1 ∧
  socket ∈ room_members S (rooms w2) ∧
  (∀ BASE_URL env other ev,
     sessionId ev = S →
     deliveries_to socket (trace_of (chatMessage_event BASE_URL env other ev w2)) = 1).
Proof.
  intros w1 w2.
  assert (Hw1 : w1 = mkWorld (messages w) (subscriptions w) (join_room socket S (rooms w)))
    by reflexivity.
  assert (Hw2 : w2 = w1).
  { subst w2. rewrite Hw1. unfold joinSession, world_of, socket_join, console_log,
      mbind, M_bind; cbn. by rewrite join_room_idempotent. }
  split; [done|]. rewrite Hw2, Hw1. cbn [rooms].
  assert (Hin : socket ∈ room_members S (join_room socket S (rooms w)))
    by (apply elem_of_join_room; by left).
  split; [done|].
  intros BASE_URL env other ev <-. rewrite deliveries_to_chatMessage_event. cbn [rooms].
  apply filter_eq_length_NoDup; [apply NoDup_elements|by apply elem_of_elements].
Qed.

(** ** Checks on the scenario *)

Example hello_is_broadcast_to_A_and_B :
  chatMessage_event base0 env_ok "A" hello world0 =
  (Returned tt,
   mkWorld [mkMessage hello 0] [sub_E1; sub_E2; sub_E3] (rooms world0),
   [ MessageSave hello;
     SocketEmit "abc" "chatMessage"
       [ ("sessionId", js "abc"); ("sender", js "u1"); ("text", js "hello");
         ("fileUrl", js ""); ("fileType", js "") ]
       ["A"; "B"];
     SubscriptionFind "abc";
     SendNotification sub_E1
       [ ("title", js "New message from u1"); ("body", js "hello");
         ("url", js "http://localhost:5002/chat/abc") ];
     SendNotification sub_E2
       [ ("title", js "New message from u1"); ("body", js "hello");
         ("url", js "http://localhost:5002/chat/abc") ] ]).
Proof. vm_compute. reflexivity. Qed.

Example gone_E1_is_pruned :
  subscriptions (world_of
    (chatMessage_event base0 (env_push_fails 410 Resolves) "A" hello world0))
  = [sub_E2; sub_E3].
Proof. reflexivity. Qed.

Example throttled_E1_is_kept :
  subscriptions (world_of
    (chatMessage_event base0 (env_push_fails 429 Resolves) "A" hello world0))
  = [sub_E1; sub_E2; sub_E3].
Proof. reflexivity. Qed.

Example photo_notification :
  JSON_stringify (notification base0 photo) =
  [ ("title", js "New message from u1");
    ("body", js "0123456789012345678901234567890123456789012345678901234567890123456789012345678901234567890123456789");
    ("icon", js "https://files.example/cat.png");
    ("url", js "http://localhost:5002/chat/abc") ].
Proof. reflexivity. Qed.

(** Sixty accented letters are sixty code units: the body is the whole text. *)
Example accented_text_is_sent_whole :
  length accented = 60 ∧
  member "body" (JSON_stringify (notification base0
    (mkMessageData "abc" "u1" accented "" "")))
  = Some accented.
Proof. split; reflexivity. Qed.

(** The cut is made after 100 code units, also inside a surrogate pair: of
    the character at positions 99 and 100 only the first half is sent. *)
Example body_is_cut_by_code_units :
  length smiley_at_100 = 101 ∧
  member "body" (JSON_stringify (notification base0
    (mkMessageData "abc" "u1" smiley_at_100 "" "")))
  = Some (replicate 99 97%N ++ [55357%N]).
Proof. split; reflexivity. Qed.

Example attachment_without_text :
  member "body" (JSON_stringify (notification base0
    (mkMessageData "abc" "u1" "" "https://files.example/a.ogg" "audio/ogg")))
  = Some (js "Sent an attachment").
Proof. reflexivity. Qed.

Example bare_keys_are_registered :
  save_subscription env_ok body_bare_keys world0 =
  (Returned (SendStatus 201),
   mkWorld [] [sub_E1; sub_E2; sub_E3; mkSubscription "E9" (mkKeys None None) None]
           (rooms world0),
   [SubscriptionFindOneAndUpdate "E9" (mkSubscription "E9" (mkKeys None None) None)]).
Proof. reflexivity. Qed.

Example rebinding_E1_replaces_it :
  subscriptions (world_of (save_subscription env_ok body_rebind_E1 world0)) =
  [ mkSubscription "E1" (mkKeys (Some (js "BPk2")) (Some (js "s3c2"))) (Some (js "xyz"));
    sub_E2; sub_E3 ].
Proof. reflexivity. Qed.

Example disconnected_socket_gets_nothing :
  emits (trace_of (chatMessage_event base0 env_ok "A" hello
                     (world_of (disconnect "B" world0)))) =
  [ SocketEmit "abc" "chatMessage" (messageData hello) ["A"] ].
Proof. vm_compute. reflexivity. Qed.

(** ** Beyond the claims: the pipeline over time *)

Lemma chatMessage_plain_run env socket ev w :
  chatMessage_plain env socket ev w =
  (Returned tt,
   mkWorld (persist_store env ev (messages w)) (subscriptions w) (rooms w),
   persist_trace env ev ++ [broadcast ev w]).
Proof.
  destruct w as [ms ss rs].
  unfold chatMessage_plain, persist_store, persist_trace, broadcast.
  unfold mbind, M_bind, try_catch, Message_save, io_to_emit, console_error; cbn.
  destruct (Message_save_settles env); reflexivity.
Qed.

(** X1: the push-enabled handler extends the handler of the other two
    servers.  On the same event, environment and world both leave the same
    Message collection and the same rooms, and the trace of the push-enabled
    one is the trace of the plain one followed by calls that are neither a
    save nor a broadcast; the plain one never touches the subscriptions. *)
Theorem push_variant_extends_plain_variant BASE_URL env socket ev w :
  let plain := chatMessage_plain env socket ev w in
  let push := chatMessage_event BASE_URL env socket ev w in
  outcome_of plain = Returned tt ∧
  messages (world_of push) = messages (world_of plain) ∧
  rooms (world_of push) = rooms (world_of plain) ∧
  subscriptions (world_of plain) = subscriptions w ∧
  ∃ after, trace_of push = trace_of plain ++ after ∧
           Forall (λ e, is_emit e = false) after ∧
           Forall (λ e, ∀ m, e ≠ MessageSave m) after.
Proof.
  intros plain push. subst plain push.
  rewrite chatMessage_plain_run, chatMessage_event_run.
  unfold outcome_of, world_of, trace_of; cbn [fst snd messages rooms subscriptions].
  repeat (split; [done|]).
  exists (dispatch_trace BASE_URL env ev (subscriptions w)).
  split; [by rewrite <- app_assoc|]. split; [apply is_emit_dispatch_trace|].
  unfold dispatch_trace. constructor; [done|].
  destruct (Subscription_find_settles env); [|repeat constructor; done].
  cbn zeta. apply Forall_app. split.
  - apply Forall_fmap, Forall_forall. done.
  - apply Forall_concat, Forall_fmap, Forall_forall. intros sub _.
    unfold compose, settle_trace.
    destruct (sendNotification_settles env sub) as [|err]; [constructor|].
    destruct (gone err); [|repeat constructor; done].
    destruct (Subscription_deleteOne_settles env (endpoint sub));
      repeat constructor; done.
Qed.

Lemma messages_serve BASE_URL req w :
  messages (serve BASE_URL req w).1 =
  messages w ++ match saved_message req with Some m => [m] | None => [] end.
Proof.
  destruct req as [socket sid|env socket ev|socket|env sub]; cbn [serve saved_message fst].
  - by rewrite app_nil_r.
  - rewrite chatMessage_event_run. unfold world_of; cbn. unfold persist_store.
    destruct (Message_save_settles env); [done|by rewrite app_nil_r].
  - by rewrite app_nil_r.
  - rewrite save_subscription_run, app_nil_r.
    destruct (body_endpoint sub) as [e|], (body_keys sub) as [k|]; try done.
    cbn zeta. destruct (decide (e = [])); [done|].
    by destruct (Subscription_update_settles env).
Qed.

(** X2: the Message collection is append-only.  After any sequence of socket
    events and registration requests it is the collection before, followed
    by one Message for each chatMessage event whose save was performed, in
    the order of the events, with the fields of the event and the time of
    the save; nothing is removed, changed or added otherwise. *)
Theorem message_history_is_append_only BASE_URL reqs w :
  messages (serve_all BASE_URL reqs w).1 = messages w ++ omap saved_message reqs.
Proof.
  revert w. induction reqs as [|req reqs IH]; intros w; cbn [serve_all fst].
  - by rewrite app_nil_r.
  - rewrite IH, messages_serve, <- app_assoc. f_equal.
    cbn [omap list_omap]. by destruct (saved_message req).
Qed.

Lemma prunes_spec env sub :
  prunes env sub = true ↔
  ∃ err, sendNotification_settles env sub = Rejects err ∧
         (statusCode err = Some 404%Z ∨ statusCode err = Some 410%Z) ∧
         Subscription_deleteOne_settles env (endpoint sub) = Resolves.
Proof.
  unfold prunes. destruct (sendNotification_settles env sub) as [|err].
  - split; [done|]. by intros (err & ? & _).
  - rewrite andb_true_iff, gone_spec. split.
    + intros [Hgone Hdel]. exists err. split; [done|]. split; [done|].
      by destruct (Subscription_deleteOne_settles env (endpoint sub)).
    + intros (err' & [= <-] & Hgone & ->). done.
Qed.

(** X3: what a chat event does to the Subscription collection.  Under the
    unique index a document is stored after the event exactly when it was
    stored before and it is not the case that the query of the event was
    answered, the document is recorded for the session of the event, its
    send was rejected with status code 404 or 410 and the store performed
    the delete.  Documents of other sessions, documents whose send went
    through or failed otherwise, and every document when the query fails,
    stay; nothing is added or changed, and the rooms are as before. *)
Theorem chat_event_removes_exactly_the_pruned_subscriptions
    BASE_URL env socket ev w s :
  unique_endpoints (subscriptions w) →
  let w' := world_of (chatMessage_event BASE_URL env socket ev w) in
  (s ∈ subscriptions w' ↔
     s ∈ subscriptions w ∧
     ¬ (Subscription_find_settles env = Resolves ∧
        sub_sessionId s = Some (sessionId ev) ∧
        ∃ err, sendNotification_settles env s = Rejects err ∧
               (statusCode err = Some 404%Z ∨ statusCode err = Some 410%Z) ∧
               Subscription_deleteOne_settles env (endpoint s) = Resolves)) ∧
  rooms w' = rooms w.
Proof.
  intros Huniq w'. split; [|subst w'; by rewrite chatMessage_event_run].
  subst w'. rewrite subscriptions_chatMessage_event. unfold dispatch_store.
  rewrite <- prunes_spec.
  destruct (Subscription_find_settles env) as [|err].
  - rewrite elem_of_settle by done. split.
    + intros [Hin Hall]. split; [done|]. intros (_ & Hsid & Hp).
      apply (Hall s); [by apply elem_of_find_by_session|done..].
    + intros [Hin Hnot]. split; [done|]. intros sub Hsub Hp Heq.
      apply Hnot. split; [done|].
      pose proof Hsub as Hsub'. apply elem_of_find_by_session in Hsub' as [Hin' Hsid].
      assert (s = sub) as -> by eauto using unique_endpoints_inj. done.
  - split; [intros Hin; split; [done|]; by intros [? _]|by intros [? _]].
Qed.

Lemma chat_event_removes_exactly_witness :
  unique_endpoints (subscriptions world0) ∧
  let w' := world_of (chatMessage_event base0 (env_push_fails 410 Resolves) "A" hello world0) in
  (sub_E3 ∈ subscriptions w' ↔
     sub_E3 ∈ subscriptions world0 ∧
     ¬ (Subscription_find_settles (env_push_fails 410 Resolves) = Resolves ∧
        sub_sessionId sub_E3 = Some (sessionId hello) ∧
        ∃ err, sendNotification_settles (env_push_fails 410 Resolves) sub_E3 = Rejects err ∧
               (statusCode err = Some 404%Z ∨ statusCode err = Some 410%Z) ∧
               Subscription_deleteOne_settles (env_push_fails 410 Resolves)
                 (endpoint sub_E3) = Resolves)) ∧
  rooms w' = rooms world0.
Proof.
  split; [exact world0_unique_endpoints|].
  exact (chat_event_removes_exactly_the_pruned_subscriptions
           base0 (env_push_fails 410 Resolves) "A" hello world0 sub_E3
           world0_unique_endpoints).
Defined.

Lemma subscriptions_serve BASE_URL req w :
  subscriptions (serve BASE_URL req w).1 =
  match req with
  | ChatMessage env _ ev => dispatch_store env ev (subscriptions w)
  | SaveSubscription env sub =>
      match registered_doc req with
      | Some doc => find_one_and_update (endpoint doc) doc (subscriptions w)
      | None => subscriptions w
      end
  | _ => subscriptions w
  end.
Proof.
  destruct req as [socket sid|env socket ev|socket|env sub];
    cbn [serve registered_doc fst]; try done.
  - apply subscriptions_chatMessage_event.
  - rewrite save_subscription_run.
    destruct (body_endpoint sub) as [e|], (body_keys sub) as [k|]; try done;
      cbn zeta; try destruct (decide (e = []));
      by destruct (Subscription_update_settles env).
Qed.

Lemma subscriptions_stay_unique_step BASE_URL req w :
  unique_endpoints (subscriptions w) →
  unique_endpoints (subscriptions (serve BASE_URL req w).1) ∧
  ∀ s, s ∈ subscriptions (serve BASE_URL req w).1 →
       s ∈ subscriptions w ∨ registered_doc req = Some s.
Proof.
  intros Huniq. rewrite subscriptions_serve.
  destruct req as [socket sid|env socket ev|socket|env sub].
  - split; [done|]. intros s Hs. by left.
  - split.
    + rewrite <- subscriptions_chatMessage_event
        with (BASE_URL := BASE_URL) (socket := socket).
      by apply unique_endpoints_chatMessage_event.
    + intros s Hs. left. by apply dispatch_store_subseteq in Hs.
  - split; [done|]. intros s Hs. by left.
  - destruct (registered_doc (SaveSubscription env sub)) as [doc|]; [|by split; auto].
    split; [by apply unique_endpoints_find_one_and_update|].
    intros s Hs. apply find_one_and_update_subseteq, elem_of_cons in Hs as [->|Hs]; auto.
Qed.

(** X4: the Subscription collection over time.  Through any sequence of
    socket events and registration requests the endpoints stay unique, and
    every document stored at the end was stored at the start or is the
    document of an accepted registration of the sequence: no handler makes
    up or alters a subscription. *)
Theorem subscriptions_stay_unique_and_come_from_registrations BASE_URL reqs w :
  unique_endpoints (subscriptions w) →
  let w' := (serve_all BASE_URL reqs w).1 in
  unique_endpoints (subscriptions w') ∧
  ∀ s, s ∈ subscriptions w' →
       s ∈ subscriptions w ∨ ∃ req, req ∈ reqs ∧ registered_doc req = Some s.
Proof.
  revert w. induction reqs as [|req reqs IH]; intros w Huniq; cbn [serve_all fst].
  - split; [done|]. intros s Hs. by left.
  - destruct (subscriptions_stay_unique_step BASE_URL req w Huniq) as [Hu Hfrom].
    destruct (IH _ Hu) as [Hu' Hfrom'].
    split; [done|]. intros s Hs. destruct (Hfrom' s Hs) as [Hin|(req' & Hreq' & Hdoc)].
    + destruct (Hfrom s Hin) as [?|Hdoc]; [by left|].
      right. exists req. split; [apply list_elem_of_here|done].
    + right. exists req'. split; [by apply list_elem_of_further|done].
Qed.

Lemma subscriptions_stay_unique_witness :
  unique_endpoints (subscriptions world0) ∧
  let reqs := [ SaveSubscription env_ok body_rebind_E1;
                ChatMessage (env_push_fails 410 Resolves) "A" hello ] in
  let w' := (serve_all base0 reqs world0).1 in
  unique_endpoints (subscriptions w') ∧
  ∀ s, s ∈ subscriptions w' →
       s ∈ subscriptions world0 ∨ ∃ req, req ∈ reqs ∧ registered_doc req = Some s.
Proof.
  split; [exact world0_unique_endpoints|].
  exact (subscriptions_stay_unique_and_come_from_registrations base0 _ world0
           world0_unique_endpoints).
Defined.




(** X6: push targets and broadcast recipients are unrelated.  The sends of
    an event are the same whatever sockets are joined to whatever rooms (a
    subscriber who is connected is pushed to all the same), and the
    broadcast is the same whatever subscriptions and messages are stored. *)
Theorem pushes_ignore_rooms_and_broadcast_ignores_the_store
    BASE_URL env socket ev ms ms' ss ss' rs rs' :
  sends (trace_of (chatMessage_event BASE_URL env socket ev (mkWorld ms ss rs))) =
  sends (trace_of (chatMessage_event BASE_URL env socket ev (mkWorld ms' ss rs'))) ∧
  emits (trace_of (chatMessage_event BASE_URL env socket ev (mkWorld ms ss rs))) =
  emits (trace_of (chatMessage_event BASE_URL env socket ev (mkWorld ms' ss' rs))).
Proof.
  split.
  - by rewrite !sends_chatMessage_event.
  - by rewrite !emits_chatMessage_event.
Qed.

Lemma find_one_and_update_idempotent e doc (l : list Subscription) :
  endpoint doc = e →
  find_one_and_update e doc (find_one_and_update e doc l) = find_one_and_update e doc l.
Proof.
  intros Hdoc. induction l as [|s l IH]; cbn.
  - by rewrite decide_True.
  - destruct (decide (endpoint s = e)) as [He|He]; cbn.
    + by rewrite decide_True.
    + rewrite decide_False by done. by f_equal.
Qed.

(** X7: registration is idempotent.  Sending the same registration request
    a second time, with the store answering the same way, leaves the world
    exactly as the first request left it, whether the request is refused
    (400), fails in the store (500) or is accepted (201). *)
Theorem registration_is_idempotent env sub w :
  let w1 := world_of (save_subscription env sub w) in
  world_of (save_subscription env sub w1) = w1 ∧
  outcome_of (save_subscription env sub w1) = outcome_of (save_subscription env sub w).
Proof.
  intros w1. subst w1. rewrite !save_subscription_run.
  destruct (body_endpoint sub) as [e|], (body_keys sub) as [k|]; try done.
  cbn zeta. destruct (decide (e = [])); [done|].
  destruct (Subscription_update_settles env); [|done].
  unfold world_of, outcome_of; cbn. split; [|done].
  by rewrite find_one_and_update_idempotent.
Qed.

Lemma no_sends_to_unbound_endpoint BASE_URL e later w :
  (∀ s, s ∈ subscriptions w → endpoint s = e → sub_sessionId s = None) →
  Forall (λ a, endpoint a.1 ≠ e) (sends (chatMessage_events BASE_URL later w).2).
Proof.
  revert w. induction later as [|[[env socket] ev] later IH]; intros w Hunb; cbn.
  - constructor.
  - rewrite sends_app. apply Forall_app. split.
    + apply Forall_forall. intros [sub payload] Hin. cbn. intros Heq.
      apply elem_of_sends, targeted_spec in Hin as (_ & Hin & _).
      apply elem_of_find_by_session in Hin as [Hin Hsid].
      rewrite (Hunb sub Hin Heq) in Hsid. done.
    + apply IH. intros s Hs. apply Hunb.
      rewrite subscriptions_chatMessage_event in Hs.
      by apply dispatch_store_subseteq in Hs.
Qed.

(** X8: a registration without session id is accepted but never pushed to.
    A request with a new, non-empty endpoint, a keys object and no sessionId
    is answered 201 when the store accepts it and its document is stored;
    yet no chat event that follows, for whatever session, ever sends a
    notification to that endpoint. *)
Theorem registration_without_session_is_never_pushed env sub w e k :
  body_endpoint sub = Some e → e ≠ [] → body_keys sub = Some k →
  body_sessionId sub = None →
  e ∉ endpoint <$> subscriptions w →
  Subscription_update_settles env = Resolves →
  let r := save_subscription env sub w in
  outcome_of r = Returned (SendStatus 201) ∧
  mkSubscription e k None ∈ subscriptions (world_of r) ∧
  ∀ BASE_URL later,
    Forall (λ a, endpoint a.1 ≠ e)
           (sends (chatMessage_events BASE_URL later (world_of r)).2).
Proof.
  intros He Hne Hk HS Hfresh Hupd r. subst r.
  rewrite save_subscription_run, He, Hk, HS. cbn zeta.
  rewrite decide_False by done. rewrite Hupd.
  unfold outcome_of, world_of; cbn [fst snd subscriptions].
  rewrite find_one_and_update_fresh by done.
  split; [done|]. split; [apply elem_of_app; right; apply list_elem_of_here|].
  intros BASE_URL later. apply no_sends_to_unbound_endpoint. cbn [subscriptions].
  intros s Hs Heq. apply elem_of_app in Hs as [Hs|Hs].
  - exfalso. apply Hfresh. apply list_elem_of_fmap. eauto.
  - apply list_elem_of_singleton in Hs. by subst s.
Qed.

Lemma registration_without_session_witness :
  body_endpoint body_bare_keys = Some (js "E9") ∧ js "E9" ≠ [] ∧
  body_keys body_bare_keys = Some (mkKeys None None) ∧
  body_sessionId body_bare_keys = None ∧
  (js "E9" ∉ endpoint <$> subscriptions world0) ∧
  Subscription_update_settles env_ok = Resolves ∧
  let r := save_subscription env_ok body_bare_keys world0 in
  outcome_of r = Returned (SendStatus 201) ∧
  mkSubscription "E9" (mkKeys None None) None ∈ subscriptions (world_of r) ∧
  ∀ BASE_URL later,
    Forall (λ a, endpoint a.1 ≠ js "E9")
           (sends (chatMessage_events BASE_URL later (world_of r)).2).
Proof.
  assert (Hne : js "E9" ≠ []) by discriminate.
  assert (Hfresh : js "E9" ∉ endpoint <$> subscriptions world0).
  { apply (bool_decide_unpack _). vm_compute. exact I. }
  split; [reflexivity|]. split; [exact Hne|]. split; [reflexivity|].
  split; [reflexivity|]. split; [exact Hfresh|]. split; [reflexivity|].
  exact (registration_without_session_is_never_pushed
           env_ok body_bare_keys world0 "E9" _ eq_refl Hne eq_refl eq_refl Hfresh eq_refl).
Defined.

(** ** Beyond the claims: configuration *)

Lemma falsy_string_is_set env k : falsy_string (env !! k) = false ↔ is_set env k.
Proof.
  unfold falsy_string, is_set. destruct (env !! k) as [v|].
  - destruct (decide (v = [])) as [->|Hne]; split; try done.
    + by intros (v & [= <-] & ?).
    + intros _. by exists v.
  - split; [done|]. by intros (v & ? & _).
Qed.

Lemma is_set_lookup (env : gmap string JsString) (k : string) :
  falsy_string (env !! k) = false → env !! k = Some (default [] (env !! k)).
Proof. unfold falsy_string. by destruct (env !! k). Qed.

(** The initialisation either goes through, every call answering, or stops
    at the first call that throws. *)
Lemma boot_cases throws calls listening :
  (boot throws calls listening = (listening, calls) ∧
   Forall (λ c, throws c = None) calls) ∨
  (∃ before c after err,
     calls = before ++ c :: after ∧
     boot throws calls listening = (Crashed err, before ++ [c]) ∧
     Forall (λ c, throws c = None) before ∧ throws c = Some err).
Proof.
  induction calls as [|c calls IH]; [left; by split|].
  cbn [boot]. destruct (throws c) as [err|] eqn:Hc.
  - right. exists [], c, calls, err. split; [done|]. split; [done|]. by split.
  - destruct IH as [[-> Hall]|(before & c' & after & err & -> & -> & Hbefore & Hc')].
    + left. split; [done|]. by constructor.
    + right. exists (c :: before), c', after, err.
      split; [done|]. split; [done|]. split; [by constructor|done].
Qed.

(** What each conjunct of the startup theorem says of one server, given how
    its startup unfolds once the configuration is complete. *)
Lemma startup_cases env throws vars (r : Startup * list InitCall) uri urls calls :
  (Forall (is_set env) vars → r = boot throws calls (Listening uri urls)) →
  (¬ Forall (is_set env) vars → ∃ msg, r = (Exited 1 msg, [])) →
  Decision (Forall (is_set env) vars) →
  ((∃ msg, r.1 = Exited 1 msg) ↔ ¬ Forall (is_set env) vars) ∧
  (∀ code msg, r.1 = Exited code msg → code = 1 ∧ r.2 = []) ∧
  (∀ uri' urls', r.1 = Listening uri' urls' →
     uri' = uri ∧ urls' = urls ∧ Forall (is_set env) vars ∧
     r.2 = calls ∧ Forall (λ c, throws c = None) calls) ∧
  (Forall (is_set env) vars → Forall (λ c, throws c = None) calls →
     r = (Listening uri urls, calls)) ∧
  (∀ err, r.1 = Crashed err →
     Forall (is_set env) vars ∧
     ∃ before c after, calls = before ++ c :: after ∧ r.2 = before ++ [c] ∧
                       Forall (λ c, throws c = None) before ∧ throws c = Some err).
Proof.
  intros Hset Hunset [Hcfg|Hcfg].
  - rewrite (Hset Hcfg).
    destruct (boot_cases throws calls (Listening uri urls))
      as [[-> Hall]|(before & c & after & err & Hcalls & -> & Hbefore & Hc)]; cbn [fst snd].
    + split; [split; [by intros [? ?]|done]|]. split; [done|].
      split; [by intros ? ? [= <- <-]|]. split; [done|]. done.
    + split; [split; [by intros [? ?]|done]|]. split; [done|]. split; [done|].
      split.
      * intros _ Hall. exfalso. rewrite Hcalls in Hall.
        apply Forall_app in Hall as [_ Hall]. apply Forall_cons in Hall as [Hall _].
        congruence.
      * intros err' [= <-]. split; [done|]. by exists before, c, after.
  - destruct (Hunset Hcfg) as [msg ->]; cbn [fst snd].
    split; [split; [done|by exists msg]|]. split; [by intros ? ? [= <- _]|].
    split; [done|]. split; [done|]. done.
Qed.

(** X9: what each server needs to start.  The push-enabled server requires
    MONGODB_URI, GOOGLE_DRIVE_FOLDER_ID, VAPID_PUBLIC_KEY and
    VAPID_PRIVATE_KEY, the second server of src/unnamed/part_000 the first
    two, src/server.js MONGODB_URI alone.  A server exits, with code 1 and
    before any initialisation call, exactly when one of its variables is
    unset or the empty string.  Otherwise it makes its initialisation calls
    in the order of the source, connecting to the MONGODB_URI of the
    environment: it reaches [server.listen] exactly when none of the calls
    throws, and the first call that throws ends the process with its error,
    no later call being made.  So the push-enabled server, with all four
    variables set, does not come up when [webpush.setVapidDetails] refuses
    the keys. *)
Theorem startup_requirements env throws :
  (∀ start vars init,
     (start, vars, init) ∈
       [ (startup_push,
          ["MONGODB_URI"; "GOOGLE_DRIVE_FOLDER_ID"; "VAPID_PUBLIC_KEY"; "VAPID_PRIVATE_KEY"],
          λ uri, init_push uri (default [] (env !! "VAPID_PUBLIC_KEY"))
                               (default [] (env !! "VAPID_PRIVATE_KEY"))
                               (urls_destructured env));
         (startup_drive, ["MONGODB_URI"; "GOOGLE_DRIVE_FOLDER_ID"],
          λ uri, init_drive uri (urls_destructured env));
         (startup_local, ["MONGODB_URI"], λ uri, init_local uri (urls_or env)) ] →
     let r := start env throws in
     ((∃ msg, r.1 = Exited 1 msg) ↔ ¬ Forall (is_set env) vars) ∧
     (∀ code msg, r.1 = Exited code msg → code = 1 ∧ r.2 = []) ∧
     (∀ uri urls, r.1 = Listening uri urls →
        env !! "MONGODB_URI" = Some uri ∧ Forall (is_set env) vars ∧
        r.2 = init uri ∧ Forall (λ c, throws c = None) (init uri) ∧
        MongooseConnect uri ∈ r.2 ∧ last r.2 = Some (ServerListen (cfg_PORT urls))) ∧
     (Forall (is_set env) vars → (∀ c, throws c = None) →
        ∃ uri urls, r = (Listening uri urls, init uri)) ∧
     (∀ err, r.1 = Crashed err →
        Forall (is_set env) vars ∧
        ∃ uri before c after,
          env !! "MONGODB_URI" = Some uri ∧
          init uri = before ++ c :: after ∧ r.2 = before ++ [c] ∧
          Forall (λ c, throws c = None) before ∧ throws c = Some err)) ∧
  (∀ pub priv err,
     Forall (is_set env) ["MONGODB_URI"; "GOOGLE_DRIVE_FOLDER_ID";
                          "VAPID_PUBLIC_KEY"; "VAPID_PRIVATE_KEY"] →
     env !! "VAPID_PUBLIC_KEY" = Some pub → env !! "VAPID_PRIVATE_KEY" = Some priv →
     throws (WebpushSetVapidDetails "mailto:you@yourdomain.com" pub priv) = Some err →
     startup_push env throws
     = (Crashed err, [WebpushSetVapidDetails "mailto:you@yourdomain.com" pub priv])).
Proof.
  split.
  - intros start vars init Hin r. subst r.
    set (uri := default [] (env !! "MONGODB_URI")).
    assert (Huri : Forall (is_set env) vars → "MONGODB_URI" ∈ vars →
                   env !! "MONGODB_URI" = Some uri).
    { intros Hcfg Hm. rewrite Forall_forall in Hcfg.
      by apply is_set_lookup, falsy_string_is_set, Hcfg. }
    assert (∃ urls,
      (Forall (is_set env) vars →
         start env throws = boot throws (init uri) (Listening uri urls)) ∧
      (¬ Forall (is_set env) vars → ∃ msg, start env throws = (Exited 1 msg, [])) ∧
      "MONGODB_URI" ∈ vars ∧
      MongooseConnect uri ∈ init uri ∧
      last (init uri) = Some (ServerListen (cfg_PORT urls)))
      as (urls & Hset & Hunset & Hm & Hconn & Hlast).
    { repeat (apply elem_of_cons in Hin as [[= -> -> ->]|Hin]);
        [..|by apply elem_of_nil in Hin].
      - exists (urls_destructured env).
        rewrite !Forall_cons, Forall_nil, <- !falsy_string_is_set.
        unfold startup_push.
        destruct (falsy_string (env !! "MONGODB_URI")),
                 (falsy_string (env !! "GOOGLE_DRIVE_FOLDER_ID")),
                 (falsy_string (env !! "VAPID_PUBLIC_KEY")),
                 (falsy_string (env !! "VAPID_PRIVATE_KEY")); cbn [orb];
          (split; [first [done | intros; exfalso; intuition discriminate]|]);
          (split; [intros Hn; first [by eexists | exfalso; apply Hn; by repeat split]|]);
          (split; [apply list_elem_of_here|]);
          (split; [|reflexivity]);
          repeat first [apply list_elem_of_here | apply list_elem_of_further].
      - exists (urls_destructured env).
        rewrite !Forall_cons, Forall_nil, <- !falsy_string_is_set.
        unfold startup_drive.
        destruct (falsy_string (env !! "MONGODB_URI")),
                 (falsy_string (env !! "GOOGLE_DRIVE_FOLDER_ID"));
          (split; [first [done | intros; exfalso; intuition discriminate]|]);
          (split; [intros Hn; first [by eexists | exfalso; apply Hn; by repeat split]|]);
          (split; [apply list_elem_of_here|]);
          (split; [|reflexivity]);
          repeat first [apply list_elem_of_here | apply list_elem_of_further].
      - exists (urls_or env).
        rewrite !Forall_cons, Forall_nil, <- !falsy_string_is_set.
        unfold startup_local.
        destruct (falsy_string (env !! "MONGODB_URI"));
          (split; [first [done | intros; exfalso; intuition discriminate]|]);
          (split; [intros Hn; first [by eexists | exfalso; apply Hn; by repeat split]|]);
          (split; [apply list_elem_of_here|]);
          (split; [|reflexivity]);
          repeat first [apply list_elem_of_here | apply list_elem_of_further]. }
    assert (Hdec : Decision (Forall (is_set env) vars)).
    { apply Forall_dec. intros k.
      destruct (falsy_string (env !! k)) eqn:Hk; [right|left].
      - intros Hs. apply falsy_string_is_set in Hs. congruence.
      - by apply falsy_string_is_set. }
    destruct (startup_cases env throws vars (start env throws) uri urls (init uri)
                Hset Hunset Hdec) as (Hexit & Hcode & Hlisten & Hup & Hcrash).
    split; [done|]. split; [done|]. split; [|split].
    + intros uri' urls' Hl. destruct (Hlisten _ _ Hl) as (-> & -> & Hcfg & Hr & Hall).
      rewrite Hr. auto 10.
    + intros Hcfg Hall. exists uri, urls. apply Hup; [done|].
      apply Forall_forall. auto.
    + intros err Hc. destruct (Hcrash _ Hc) as (Hcfg & before & c & after & ?).
      split; [done|]. exists uri, before, c, after. intuition.
  - intros pub priv err Hcfg Hpub Hpriv Hthrows.
    rewrite !Forall_cons, <- !falsy_string_is_set in Hcfg.
    destruct Hcfg as (Hm & Hg & Hp & Hv & _).
    unfold startup_push. rewrite Hm, Hg, Hp, Hv, Hpub, Hpriv. cbn [orb from_option id].
    unfold init_push. cbn [boot].
    by rewrite Hthrows.
Qed.

Example push_server_with_refused_keys :
  Forall (is_set env_push) ["MONGODB_URI"; "GOOGLE_DRIVE_FOLDER_ID";
                            "VAPID_PUBLIC_KEY"; "VAPID_PRIVATE_KEY"] ∧
  startup_push env_push refuses_vapid =
  (Crashed bad_vapid_key,
   [WebpushSetVapidDetails "mailto:you@yourdomain.com" "not-a-key" "secret"]) ∧
  startup_push env_push (λ _, None) =
  (Listening "mongodb://db/chat"
             (mkUrls "5002" "http://localhost:5002" "http://localhost:3000"),
   [ WebpushSetVapidDetails "mailto:you@yourdomain.com" "not-a-key" "secret";
     Cors "http://localhost:3000"; SocketIO "http://localhost:3000";
     MongooseConnect "mongodb://db/chat"; RequireServiceAccount; GoogleAuthFromJSON;
     GoogleDrive; ServerListen "5002" ]).
Proof.
  split; [|split; vm_compute; reflexivity].
  repeat constructor; eexists; (split; [reflexivity|discriminate]).
Qed.

Lemma or_default_set (x : option JsString) d :
  x ≠ Some [] → or_default x d = default d x.
Proof. destruct x as [[|c s]|]; done. Qed.

(** X10: the two ways the servers read PORT, BASE_URL and CLIENT_URL.  When
    none of the three is set to the empty string, src/server.js (which uses
    [||]) and the servers of src/unnamed/part_000 (which use destructuring
    defaults) compute the same values; an unset BASE_URL is then
    http://localhost: followed by the PORT in effect.  They part when
    BASE_URL is set to the empty string: the part_000 servers keep it, and
    the link of a notification is then "/chat/" and the session id alone,
    while src/server.js falls back to the default. *)
Theorem url_settings_agree_unless_set_empty env :
  ((∀ k, k ∈ ["PORT"; "BASE_URL"; "CLIENT_URL"] → env !! k ≠ Some []) →
     urls_or env = urls_destructured env) ∧
  (env !! "BASE_URL" = None →
     cfg_BASE_URL (urls_destructured env)
     = js "http://localhost:" ++ cfg_PORT (urls_destructured env)) ∧
  (env !! "BASE_URL" = Some [] →
     cfg_BASE_URL (urls_destructured env) = [] ∧
     cfg_BASE_URL (urls_or env) = js "http://localhost:" ++ cfg_PORT (urls_or env) ∧
     ∀ ev, member "url" (JSON_stringify
                           (notification (cfg_BASE_URL (urls_destructured env)) ev))
           = Some (js "/chat/" ++ sessionId ev)).
Proof.
  split; [|split].
  - intros Hset. unfold urls_or, urls_destructured. cbn zeta.
    rewrite !or_default_set; [done|apply Hset..].
    + do 2 apply list_elem_of_further. apply list_elem_of_here.
    + apply list_elem_of_further, list_elem_of_here.
    + apply list_elem_of_here.
  - intros Hb. unfold urls_destructured. cbn [cfg_BASE_URL cfg_PORT]. by rewrite Hb.
  - intros Hb.
    assert (Hkept : cfg_BASE_URL (urls_destructured env) = [])
      by (unfold urls_destructured; cbn [cfg_BASE_URL]; by rewrite Hb).
    split; [done|].
    split; [unfold urls_or; cbn [cfg_BASE_URL cfg_PORT]; by rewrite Hb|].
    intros ev. rewrite Hkept.
    by destruct (notification_members [] ev) as (_ & _ & _ & ->).
Qed.

(** ** Beyond the claims: uploads *)

Lemma startsWith_image_audio sub : startsWith "image/" (js "audio/" ++ sub) = false.
Proof. reflexivity. Qed.

(** X11: which uploads are let through and which of them show an icon.  The
    file filter accepts exactly the files whose MIME type starts with
    "image/" or with "audio/" and refuses the others with "Only images and
    audio files are allowed.".  When an accepted file is announced in a chat
    message with its MIME type as fileType, the notification carries the
    file URL as icon exactly for the image types and no icon exactly for the
    audio types. *)
Theorem upload_filter_and_notification_icon file :
  (fileFilter file = Accepted ↔
     (∃ sub, mimetype file = js "image/" ++ sub) ∨
     (∃ sub, mimetype file = js "audio/" ++ sub)) ∧
  (∀ error, fileFilter file = Refused error →
            error = "Only images and audio files are allowed.") ∧
  (fileFilter file = Accepted →
   ∀ BASE_URL ev, fileType ev = mimetype file →
     let payload := JSON_stringify (notification BASE_URL ev) in
     (member "icon" payload = Some (fileUrl ev) ↔ ∃ sub, mimetype file = js "image/" ++ sub) ∧
     (member "icon" payload = None ↔ ∃ sub, mimetype file = js "audio/" ++ sub)).
Proof.
  rewrite <- !startsWith_spec. unfold fileFilter.
  destruct (startsWith "image/" (mimetype file)) eqn:Himg,
           (startsWith "audio/" (mimetype file)) eqn:Haud; cbn [orb].
  - exfalso. apply startsWith_spec in Haud as [sub Haud].
    by rewrite Haud, startsWith_image_audio in Himg.
  - split; [split; auto|]. split; [done|]. intros _ BASE_URL ev Hty.
    destruct (notification_members BASE_URL ev) as (_ & _ & -> & _).
    rewrite <- !startsWith_spec, Hty, Himg, ?Haud. done.
  - split; [split; auto|]. split; [done|]. intros _ BASE_URL ev Hty.
    destruct (notification_members BASE_URL ev) as (_ & _ & -> & _).
    rewrite <- !startsWith_spec, Hty, Himg, ?Haud. done.
  - split; [split; [done|by intros [?|?]]|]. split; [by intros error [= <-]|done].
Qed.

(** X12: the upload to Google Drive.  Without a file the answer is 400 and
    Drive is not called.  With a file the answer is a file URL exactly when
    the three calls, create, then share with anyone as reader, then read the
    link of the created file, are all answered; the first call that fails
    ends the request with a 500 whose text is the message of that failure,
    or "Upload to Google Drive failed." when the message is empty, and no
    later call is made: a file created before the failure stays in the
    folder. *)
Theorem drive_upload_outcomes FOLDER env req_file :
  let r := upload_drive FOLDER env req_file in
  (req_file = None →
     r = (UploadError 400 "No file provided or file too large.", [])) ∧
  (∀ file, req_file = Some file →
     let create := DriveFilesCreate (originalname file) (mimetype file) FOLDER in
     let log := DriveConsoleError "Google Drive upload error:" in
     let text err := or_else (message err) "Upload to Google Drive failed." in
     (∀ link, r.1 = UploadJson link ↔
        ∃ id, drive_files_create env = Answers id ∧
              drive_permissions_create env = Answers tt ∧
              drive_files_get env = Answers link) ∧
     (∀ err, drive_files_create env = Fails err →
        r = (UploadError 500 (text err), [create; log])) ∧
     (∀ id err, drive_files_create env = Answers id →
        drive_permissions_create env = Fails err →
        r = (UploadError 500 (text err),
             [create; DrivePermissionsCreate id "reader" "anyone"; log])) ∧
     (∀ id err, drive_files_create env = Answers id →
        drive_permissions_create env = Answers tt →
        drive_files_get env = Fails err →
        r = (UploadError 500 (text err),
             [create; DrivePermissionsCreate id "reader" "anyone";
              DriveFilesGet id "webContentLink"; log]))) ∧
  (∀ status error, r.1 = UploadError status error →
     error ≠ [] ∧ (status = 400 ∨ status = 500)).
Proof.
  intros r. subst r. unfold upload_drive.
  assert (Htext : ∀ err, or_else (message err) "Upload to Google Drive failed." ≠ []).
  { intros err. by destruct (message err). }
  destruct req_file as [file|].
  - split; [done|]. split.
    + intros file' [= <-]. cbn zeta.
      destruct (drive_files_create env) as [id|e1].
      * destruct (drive_permissions_create env) as [[]|e2].
        -- destruct (drive_files_get env) as [link'|e3]; cbn.
           ++ split; [|done]. intros link. split.
              ** intros [= ->]. eauto.
              ** intros (id' & [= <-] & _ & [= <-]). done.
           ++ split; [|split; [done|split; [done|]]].
              ** intros link. split; [done|]. by intros (? & _ & _ & ?).
              ** by intros id' err [= <-] _ [= <-].
        -- cbn. split; [|split; [done|split; [|done]]].
           ++ intros link. split; [done|]. by intros (? & _ & ? & _).
           ++ by intros id' err [= <-] [= <-].
      * cbn. split; [|split; [|done]].
        -- intros link. split; [done|]. by intros (? & ? & _).
        -- by intros err [= <-].
    + intros status error.
      destruct (drive_files_create env) as [id|e1]; cbn.
      * destruct (drive_permissions_create env) as [[]|e2]; cbn.
        -- destruct (drive_files_get env) as [link'|e3]; cbn; [done|].
           intros [= <- <-]. auto.
        -- intros [= <- <-]. auto.
      * intros [= <- <-]. auto.
  - split; [done|]. split; [done|]. cbn. intros status error [= <- <-]. auto.
Qed.

Section Filenames.

Lemma js_inj a b : js a = js b → a = b.
Proof.
  unfold js. intros Heq.
  assert (Hinj : Inj (=) (=) N_of_ascii).
  { intros x y Hxy. by rewrite <- (ascii_N_embedding x), Hxy, ascii_N_embedding. }
  apply (inj (fmap N_of_ascii)) in Heq.
  by rewrite <- (String.string_of_list_ascii_of_string a), Heq,
             String.string_of_list_ascii_of_string.
Qed.

Lemma no_dash_js_cons c s :
  no_dash (js (String c s)) = negb (Ascii.eqb c "-") && no_dash (js s).
Proof.
  change (js (String c s)) with (N_of_ascii c :: js s). cbn [no_dash]. f_equal. f_equal.
  unfold dash. destruct (Ascii.eqb_spec c "-"%char) as [->|Hne]; [apply N.eqb_refl|].
  apply N.eqb_neq. intros Heq. apply Hne.
  by rewrite <- (ascii_N_embedding c), Heq, ascii_N_embedding.
Qed.

Lemma no_dash_pretty_N_char x : negb (Ascii.eqb (pretty_N_char x) "-") = true.
Proof. unfold pretty_N_char. by repeat case_match. Qed.

Lemma no_dash_pretty_N_go x s :
  no_dash (js s) = true → no_dash (js (pretty_N_go x s)) = true.
Proof.
  revert s. induction (N.lt_wf_0 x) as [x _ IH]; intros s Hs.
  assert (x = 0 ∨ 0 < x)%N as [->|Hpos] by lia.
  - by rewrite pretty_N_go_0.
  - rewrite pretty_N_go_step by done. apply IH; [by apply N.div_lt|].
    by rewrite no_dash_js_cons, no_dash_pretty_N_char, Hs.
Qed.

Lemma no_dash_pretty (n : N) : no_dash (js (pretty n)) = true.
Proof.
  unfold pretty, pretty_N. case_decide; [done|]. by apply no_dash_pretty_N_go.
Qed.

(** Two strings cut at their first dash agree on both sides of it. *)
Lemma split_at_first_dash (a b x y : JsString) :
  no_dash a = true → no_dash b = true →
  a ++ js "-" ++ x = b ++ js "-" ++ y → a = b ∧ x = y.
Proof.
  change (js "-") with [dash].
  revert b. induction a as [|c a IH]; intros [|d b] Ha Hb Heq; cbn in Heq.
  - by injection Heq.
  - exfalso. injection Heq as <- _. cbn in Hb. by rewrite N.eqb_refl in Hb.
  - exfalso. injection Heq as -> _. cbn in Ha. by rewrite N.eqb_refl in Ha.
  - injection Heq as -> Heq. cbn in Ha, Hb.
    apply andb_true_iff in Ha as [_ Ha]. apply andb_true_iff in Hb as [_ Hb].
    destruct (IH b Ha Hb Heq) as [-> ->]. done.
Qed.

End Filenames.

(** X13: the names src/server.js gives to stored uploads.  The name is the
    time, a dash, the random number, a dash and the original name; two
    uploads get the same stored name only when their time, their random
    number and their original name are all the same, whatever dashes or
    digits the original names contain. *)
Theorem disk_filename_injective now now' random random' file file' :
  disk_filename now random file = disk_filename now' random' file' →
  now = now' ∧ random = random' ∧ originalname file = originalname file'.
Proof.
  unfold disk_filename. cbn zeta. rewrite <- !app_assoc. intros Heq.
  apply split_at_first_dash in Heq as [Hnow Heq]; [|apply no_dash_pretty..].
  apply split_at_first_dash in Heq as [Hrandom Hname]; [|apply no_dash_pretty..].
  split; [by apply (inj pretty), js_inj|]. split; [by apply (inj pretty), js_inj|done].
Qed.

Lemma disk_filename_injective_witness :
  disk_filename 1700000000000 123456789 cat_png
  = disk_filename 1700000000000 123456789 cat_png ∧
  (1700000000000 = 1700000000000 ∧ 123456789 = 123456789 ∧
   originalname cat_png = originalname cat_png)%N.
Proof.
  split; [reflexivity|].
  exact (disk_filename_injective 1700000000000 1700000000000 123456789 123456789
           cat_png cat_png eq_refl).
Defined.

Example disk_filename_of_cat :
  upload_local base0 (Some (disk_filename 1700000000000 123456789 cat_png)) =
  UploadJson (Some (js "http://localhost:5002/uploads/1700000000000-123456789-cat.png")).
Proof. vm_compute. reflexivity. Qed.

Example push_server_with_empty_base_url :
  cfg_BASE_URL (urls_destructured {[ "BASE_URL" := [] ]}) = [] ∧
  cfg_BASE_URL (urls_or {[ "BASE_URL" := [] ]}) = "http://localhost:5002".
Proof. split; vm_compute; reflexivity. Qed.

(** ** Beyond the claims: sessions, users and history *)

(** Unfolds the sequencing of a route down to its store calls. *)
Ltac unfold_route :=
  unfold attempt, mbind, Prog_bind, mret, Prog_ret, api_console_error, io_emit_newUser.

Lemma create_chat_run env s :
  create_chat env s =
  let sid := api_uuidv4 env in
  if decide (sid ∈ cs_sessionId <$> chatSessions s) then
    (Returned (JsonError 500 "Could not create chat session"), s,
     [ChatSessionSave sid; ApiConsoleError "Error creating chat session:"])
  else
    match ChatSession_save_settles env with
    | Resolves =>
        (Returned (JsonSessionId sid),
         mkSite (world s) (chatSessions s ++ [mkChatSession sid (api_now env)]) (users s),
         [ChatSessionSave sid])
    | Rejects _ =>
        (Returned (JsonError 500 "Could not create chat session"), s,
         [ChatSessionSave sid; ApiConsoleError "Error creating chat session:"])
    end.
Proof.
  unfold create_chat, ChatSession_save. unfold_route. cbn zeta.
  destruct (decide (api_uuidv4 env ∈ cs_sessionId <$> chatSessions s)); [done|].
  by destruct (ChatSession_save_settles env).
Qed.

(** The user a complete body gives, and nothing for a body that lacks a
    required field. *)
Lemma User_save_run env body link s :
  User_save env body link s =
  match body_name body, body_email body, body_companyName body, User_save_settles env with
  | Some name, Some email, Some companyName, Resolves =>
      let newUser := mkUser (api_objectId env) name email companyName link (api_now env) in
      (Returned newUser, mkSite (world s) (chatSessions s) (users s ++ [newUser]),
       [UserSave link])
  | Some _, Some _, Some _, Rejects err => (Threw err, s, [UserSave link])
  | _, _, _, _ => (Threw validation_failed, s, [UserSave link])
  end.
Proof.
  unfold User_save.
  destruct (body_name body), (body_email body), (body_companyName body),
    (User_save_settles env); reflexivity.
Qed.

Lemma create_user_run CLIENT_URL env body s :
  create_user CLIENT_URL env body s =
  let sid := api_uuidv4 env in
  let link := CLIENT_URL ++ js "/chat/" ++ sid in
  let failed (s' : Site) (calls : list ApiCall) :=
    (Returned (JsonError 500 "Could not create user"), s',
     calls ++ [ApiConsoleError "Error creating user:"]) in
  if decide (sid ∈ cs_sessionId <$> chatSessions s) then failed s [ChatSessionSave sid]
  else
    match ChatSession_save_settles env with
    | Rejects _ => failed s [ChatSessionSave sid]
    | Resolves =>
        let s1 := mkSite (world s) (chatSessions s ++ [mkChatSession sid (api_now env)])
                         (users s) in
        match body_name body, body_email body, body_companyName body,
              User_save_settles env with
        | Some name, Some email, Some companyName, Resolves =>
            let newUser := mkUser (api_objectId env) name email companyName link
                                  (api_now env) in
            (Returned (JsonUser newUser),
             mkSite (world s) (chatSessions s1) (users s ++ [newUser]),
             [ChatSessionSave sid; UserSave link; IoEmit "newUser" newUser])
        | _, _, _, _ => failed s1 [ChatSessionSave sid; UserSave link]
        end
    end.
Proof.
  unfold create_user, ChatSession_save. unfold_route. cbn zeta.
  destruct (decide (api_uuidv4 env ∈ cs_sessionId <$> chatSessions s)); [done|].
  destruct (ChatSession_save_settles env); [|done].
  rewrite User_save_run. cbn [world chatSessions users].
  destruct (body_name body), (body_email body), (body_companyName body),
    (User_save_settles env); reflexivity.
Qed.

Lemma create_user_local_run CLIENT_URL env body s :
  create_user_local CLIENT_URL env body s =
  let link := CLIENT_URL ++ js "/chat/" ++ api_uuidv4 env in
  match body_name body, body_email body, body_companyName body, User_save_settles env with
  | Some name, Some email, Some companyName, Resolves =>
      let newUser := mkUser (api_objectId env) name email companyName link (api_now env) in
      (Returned (JsonUser newUser),
       mkSite (world s) (chatSessions s) (users s ++ [newUser]), [UserSave link])
  | _, _, _, _ =>
      (Returned (JsonError 500 "Could not create user"), s,
       [UserSave link; ApiConsoleError "Error creating user:"])
  end.
Proof.
  unfold create_user_local. unfold_route. cbn zeta. rewrite User_save_run.
  destruct (body_name body), (body_email body), (body_companyName body),
    (User_save_settles env); reflexivity.
Qed.

Lemma delete_user_run env id s :
  delete_user env id s =
  match User_delete_settles env with
  | Resolves =>
      (Returned (NoContent 204),
       mkSite (world s) (chatSessions s) (delete_by_id id (users s)),
       [UserFindByIdAndDelete id])
  | Rejects _ =>
      (Returned (JsonError 500 "Failed to delete user"), s,
       [UserFindByIdAndDelete id; ApiConsoleError "Error deleting user:"])
  end.
Proof.
  unfold delete_user, User_findByIdAndDelete. unfold_route.
  by destruct (User_delete_settles env).
Qed.

Lemma get_messages_run env sid s :
  get_messages env sid s =
  match Message_find_settles env with
  | Resolves =>
      (Returned (JsonMessages (oldest_first createdAt
         (filter (λ m, sessionId (data m) = sid) (messages (world s))))),
       s, [MessageFind sid])
  | Rejects _ =>
      (Returned (JsonError 500 "Failed to fetch messages"), s,
       [MessageFind sid; ApiConsoleError "Error fetching messages:"])
  end.
Proof.
  unfold get_messages, Message_find_sorted. unfold_route.
  by destruct (Message_find_settles env).
Qed.

Lemma chat_sessions_run env s :
  chat_sessions env s =
  match ChatSession_find_settles env with
  | Resolves =>
      (Returned (JsonSessions (newest_first cs_createdAt (chatSessions s))), s,
       [ChatSessionFind])
  | Rejects _ =>
      (Returned (JsonError 500 "Could not fetch chat sessions"), s,
       [ChatSessionFind; ApiConsoleError "Error fetching chat sessions:"])
  end.
Proof.
  unfold chat_sessions, ChatSession_find_sorted. unfold_route.
  by destruct (ChatSession_find_settles env).
Qed.

Lemma get_users_run env s :
  get_users env s =
  match User_find_settles env with
  | Resolves =>
      (Returned (JsonUsers (newest_first user_createdAt (users s))), s, [UserFind])
  | Rejects _ =>
      (Returned (JsonError 500 "Could not fetch users"), s,
       [UserFind; ApiConsoleError "Error fetching users:"])
  end.
Proof.
  unfold get_users, User_find_sorted. unfold_route.
  by destruct (User_find_settles env).
Qed.

(** X14: what a successful create-user has done.  When the route answers
    with a user, one session with the generated id and the current time and
    that one user have been added to the store, the id was not in use
    before, the user carries the name, email and company of the request and
    the link CLIENT_URL/chat/<session id>, the user was announced once to
    the sockets as newUser, after both saves, and the world of the chat is
    untouched. *)
Theorem create_user_stores_session_user_and_announces CLIENT_URL env body s u :
  (create_user CLIENT_URL env body s).1.1 = Returned (JsonUser u) →
  let r := create_user CLIENT_URL env body s in
  let sid := api_uuidv4 env in
  (sid ∉ cs_sessionId <$> chatSessions s) ∧
  chatSessions r.1.2 = chatSessions s ++ [mkChatSession sid (api_now env)] ∧
  users r.1.2 = users s ++ [u] ∧
  world r.1.2 = world s ∧
  user_link u = CLIENT_URL ++ js "/chat/" ++ sid ∧
  body_name body = Some (user_name u) ∧
  body_email body = Some (user_email u) ∧
  body_companyName body = Some (user_companyName u) ∧
  r.2 = [ChatSessionSave sid; UserSave (user_link u); IoEmit "newUser" u].
Proof.
  rewrite create_user_run. cbn zeta.
  destruct (decide (api_uuidv4 env ∈ cs_sessionId <$> chatSessions s)); [done|].
  destruct (ChatSession_save_settles env); [|done].
  destruct (body_name body), (body_email body), (body_companyName body),
    (User_save_settles env); try done.
  cbn. intros [= <-]. done.
Qed.

Lemma create_user_witness :
  (create_user "http://localhost:3000" api_ok ada site0).1.1
  = Returned (JsonUser (mkUser "u-30" "Ada" "ada@example.org" "Engines"
                               "http://localhost:3000/chat/s-30" 30)) ∧
  let u := mkUser "u-30" "Ada" "ada@example.org" "Engines"
                  "http://localhost:3000/chat/s-30" 30 in
  let r := create_user "http://localhost:3000" api_ok ada site0 in
  let sid := api_uuidv4 api_ok in
  (sid ∉ cs_sessionId <$> chatSessions site0) ∧
  chatSessions r.1.2 = chatSessions site0 ++ [mkChatSession sid (api_now api_ok)] ∧
  users r.1.2 = users site0 ++ [u] ∧
  world r.1.2 = world site0 ∧
  user_link u = js "http://localhost:3000" ++ js "/chat/" ++ sid ∧
  body_name ada = Some (user_name u) ∧
  body_email ada = Some (user_email u) ∧
  body_companyName ada = Some (user_companyName u) ∧
  r.2 = [ChatSessionSave sid; UserSave (user_link u); IoEmit "newUser" u].
Proof.
  split; [reflexivity|].
  exact (create_user_stores_session_user_and_announces
           "http://localhost:3000" api_ok ada site0 _ eq_refl).
Defined.

(** X15: create-user is not atomic.  When the session id is new and the
    session is saved, but the user is not, because name, email or company is
    missing from the request or because the store rejects the user, the
    answer is 500 "Could not create user", no user is stored and none is
    announced, and the session that was saved stays in the store. *)
Theorem create_user_failure_leaves_the_session_behind CLIENT_URL env body s :
  api_uuidv4 env ∉ cs_sessionId <$> chatSessions s →
  ChatSession_save_settles env = Resolves →
  (body_name body = None ∨ body_email body = None ∨ body_companyName body = None
   ∨ ∃ err, User_save_settles env = Rejects err) →
  let r := create_user CLIENT_URL env body s in
  let sid := api_uuidv4 env in
  r.1.1 = Returned (JsonError 500 "Could not create user") ∧
  chatSessions r.1.2 = chatSessions s ++ [mkChatSession sid (api_now env)] ∧
  users r.1.2 = users s ∧
  r.2 = [ChatSessionSave sid; UserSave (CLIENT_URL ++ js "/chat/" ++ sid);
         ApiConsoleError "Error creating user:"].
Proof.
  intros Hfresh Hsave Huser. rewrite create_user_run. cbn zeta.
  rewrite decide_False by done. rewrite Hsave.
  destruct (body_name body), (body_email body), (body_companyName body),
    (User_save_settles env); try done.
  exfalso. destruct Huser as [?|[?|[?|[err ?]]]]; done.
Qed.

Lemma create_user_failure_witness :
  (api_uuidv4 api_ok ∉ cs_sessionId <$> chatSessions site0) ∧
  ChatSession_save_settles api_ok = Resolves ∧
  (body_name nameless = None ∨ body_email nameless = None
   ∨ body_companyName nameless = None ∨ ∃ err, User_save_settles api_ok = Rejects err) ∧
  let r := create_user "http://localhost:3000" api_ok nameless site0 in
  let sid := api_uuidv4 api_ok in
  r.1.1 = Returned (JsonError 500 "Could not create user") ∧
  chatSessions r.1.2 = chatSessions site0 ++ [mkChatSession sid (api_now api_ok)] ∧
  users r.1.2 = users site0 ∧
  r.2 = [ChatSessionSave sid; UserSave (js "http://localhost:3000" ++ js "/chat/" ++ sid);
         ApiConsoleError "Error creating user:"].
Proof.
  assert (Hfresh : api_uuidv4 api_ok ∉ cs_sessionId <$> chatSessions site0).
  { apply (bool_decide_unpack _). vm_compute. exact I. }
  split; [exact Hfresh|]. split; [reflexivity|]. split; [left; reflexivity|].
  exact (create_user_failure_leaves_the_session_behind
           "http://localhost:3000" api_ok nameless site0 Hfresh eq_refl
           (or_introl eq_refl)).
Defined.

(** X16: create-user of src/server.js makes users without sessions.  When it
    answers with a user, that user has been stored with the link
    CLIENT_URL/chat/<generated id>, but the ChatSession collection is
    unchanged and nothing has been announced to the sockets: unless the
    generated id happens to be a stored session, the link of the new user
    names no stored session. *)
Theorem create_user_local_stores_no_session CLIENT_URL env body s u :
  (create_user_local CLIENT_URL env body s).1.1 = Returned (JsonUser u) →
  let r := create_user_local CLIENT_URL env body s in
  users r.1.2 = users s ++ [u] ∧
  chatSessions r.1.2 = chatSessions s ∧
  user_link u = CLIENT_URL ++ js "/chat/" ++ api_uuidv4 env ∧
  r.2 = [UserSave (user_link u)] ∧
  (api_uuidv4 env ∉ cs_sessionId <$> chatSessions s →
   ∀ c, c ∈ chatSessions r.1.2 →
        user_link u ≠ CLIENT_URL ++ js "/chat/" ++ cs_sessionId c).
Proof.
  rewrite create_user_local_run. cbn zeta.
  destruct (body_name body) as [name|], (body_email body) as [email|],
    (body_companyName body) as [company|], (User_save_settles env); try done.
  cbn [fst snd]. intros Hu.
  assert (u = mkUser (api_objectId env) name email company
                     (CLIENT_URL ++ js "/chat/" ++ api_uuidv4 env) (api_now env))
    as -> by congruence.
  cbn [users chatSessions user_link]. repeat (split; [done|]).
  intros Hfresh c Hc Heq. apply Hfresh.
  do 2 apply (inj (app _)) in Heq.
  rewrite Heq. apply list_elem_of_fmap. eauto.
Qed.

Lemma create_user_local_witness :
  (create_user_local "http://localhost:3000" api_ok ada site0).1.1
  = Returned (JsonUser (mkUser "u-30" "Ada" "ada@example.org" "Engines"
                               "http://localhost:3000/chat/s-30" 30)) ∧
  let u := mkUser "u-30" "Ada" "ada@example.org" "Engines"
                  "http://localhost:3000/chat/s-30" 30 in
  let r := create_user_local "http://localhost:3000" api_ok ada site0 in
  users r.1.2 = users site0 ++ [u] ∧
  chatSessions r.1.2 = chatSessions site0 ∧
  user_link u = js "http://localhost:3000" ++ js "/chat/" ++ api_uuidv4 api_ok ∧
  r.2 = [UserSave (user_link u)] ∧
  (api_uuidv4 api_ok ∉ cs_sessionId <$> chatSessions site0 →
   ∀ c, c ∈ chatSessions r.1.2 →
        user_link u ≠ js "http://localhost:3000" ++ js "/chat/" ++ cs_sessionId c).
Proof.
  split; [reflexivity|].
  exact (create_user_local_stores_no_session
           "http://localhost:3000" api_ok ada site0 _ eq_refl).
Defined.

Lemma delete_by_id_subseteq id (l : list User) : delete_by_id id l ⊆ l.
Proof.
  induction l as [|u l IH]; cbn; [done|].
  intros x Hx. case_decide.
  - by apply list_elem_of_further.
  - apply elem_of_cons in Hx as [->|Hx]; [apply list_elem_of_here|].
    by apply list_elem_of_further, IH.
Qed.

Lemma delete_by_id_absent id (l : list User) :
  id ∉ user_id <$> l → delete_by_id id l = l.
Proof.
  induction l as [|u l IH]; cbn; [done|].
  rewrite not_elem_of_cons. intros [Hne Hl].
  rewrite decide_False by done. f_equal. by apply IH.
Qed.

Lemma delete_by_id_present id (l : list User) :
  id ∈ user_id <$> l → S (length (delete_by_id id l)) = length l.
Proof.
  induction l as [|u l IH]; cbn.
  - intros H. by apply elem_of_nil in H.
  - case_decide as Hid; [done|]. rewrite elem_of_cons. intros [?|Hin]; [done|].
    cbn. f_equal. by apply IH.
Qed.

Lemma delete_by_id_others id (l : list User) u :
  user_id u ≠ id → u ∈ delete_by_id id l ↔ u ∈ l.
Proof.
  intros Hne. induction l as [|u0 l IH]; cbn; [done|].
  case_decide as Hid; rewrite !elem_of_cons.
  - split; [auto|]. intros [->|?]; [done|auto].
  - by rewrite IH.
Qed.

(** X17: deleting a user.  When the store performs the delete the answer is
    204 whether or not a user has the id: without such a user nothing
    changes, with one the collection is one user shorter and every user with
    another id is kept.  When the store rejects, the answer is 500 and
    nothing changes.  In every case the sessions, the messages, the
    subscriptions and the rooms are as before: the chat session of a deleted
    user, and what was said in it, stay. *)
Theorem delete_user_outcomes env id s :
  let r := delete_user env id s in
  chatSessions r.1.2 = chatSessions s ∧
  world r.1.2 = world s ∧
  (User_delete_settles env = Resolves →
     r.1.1 = Returned (NoContent 204) ∧
     (id ∉ user_id <$> users s → r.1.2 = s) ∧
     (id ∈ user_id <$> users s → S (length (users r.1.2)) = length (users s)) ∧
     (∀ u, user_id u ≠ id → u ∈ users r.1.2 ↔ u ∈ users s)) ∧
  (∀ err, User_delete_settles env = Rejects err →
     r.1.1 = Returned (JsonError 500 "Failed to delete user") ∧ r.1.2 = s).
Proof.
  intros r. subst r. rewrite delete_user_run.
  destruct (User_delete_settles env) as [|err]; cbn.
  - split; [done|]. split; [done|]. split; [|done]. intros _.
    split; [done|]. split; [|split].
    + intros Habs. rewrite delete_by_id_absent by done. by destruct s.
    + apply delete_by_id_present.
    + intros u Hne. by apply delete_by_id_others.
  - split; [done|]. split; [done|]. split; [done|]. by intros err' _.
Qed.

(** X18: every route answers.  Whatever the store does, none of the session,
    history and user routes lets an error escape: each returns a reply, and
    the reply to a failure is a 500.  The three GET routes never change the
    site, and no route but create-user and delete-user changes the users. *)
Theorem routes_always_answer CLIENT_URL req s :
  let r := route CLIENT_URL req s in
  (∃ reply, r.1.1 = Returned reply ∧
            ∀ status error, reply = JsonError status error → status = 500) ∧
  (match req with
   | ChatSessions _ | GetMessages _ _ | GetUsers _ => r.1.2 = s
   | CreateChat _ => users r.1.2 = users s ∧ world r.1.2 = world s
   | CreateUser _ _ | DeleteUser _ _ => world r.1.2 = world s
   end).
Proof.
  intros r. subst r.
  destruct req as [env|env|env sid|env body|env|env id]; cbn [route].
  - rewrite create_chat_run. cbn zeta.
    destruct (decide (api_uuidv4 env ∈ cs_sessionId <$> chatSessions s));
      [|destruct (ChatSession_save_settles env)]; cbn;
      (split; [eexists; split; [done|]; by intros ?? [= <- _]|done]).
  - rewrite chat_sessions_run. destruct (ChatSession_find_settles env); cbn;
      (split; [eexists; split; [done|]; by intros ?? [= <- _]|done]).
  - rewrite get_messages_run. destruct (Message_find_settles env); cbn;
      (split; [eexists; split; [done|]; by intros ?? [= <- _]|done]).
  - rewrite create_user_run. cbn zeta.
    destruct (decide (api_uuidv4 env ∈ cs_sessionId <$> chatSessions s));
      [|destruct (ChatSession_save_settles env);
        [destruct (body_name body), (body_email body), (body_companyName body),
           (User_save_settles env)|]]; cbn;
      (split; [eexists; split; [done|]; by intros ?? [= <- _]|done]).
  - rewrite get_users_run. destruct (User_find_settles env); cbn;
      (split; [eexists; split; [done|]; by intros ?? [= <- _]|done]).
  - rewrite delete_user_run. destruct (User_delete_settles env); cbn;
      (split; [eexists; split; [done|]; by intros ?? [= <- _]|done]).
Qed.

Section Sorting.

Context {A : Type} (createdAt : A → Z).

#[local] Instance not_after_trans : Transitive (not_after createdAt).
Proof. unfold not_after. intros x y z ??. lia. Qed.
#[local] Instance not_after_total : Total (not_after createdAt).
Proof. unfold not_after. intros x y. lia. Qed.
#[local] Instance not_before_trans : Transitive (not_before createdAt).
Proof. unfold not_before. intros x y z ??. lia. Qed.
#[local] Instance not_before_total : Total (not_before createdAt).
Proof. unfold not_before. intros x y. lia. Qed.

Lemma oldest_first_sorted l : StronglySorted (not_after createdAt) (oldest_first createdAt l).
Proof. apply (StronglySorted_merge_sort _). Qed.

Lemma oldest_first_perm l : oldest_first createdAt l ≡ₚ l.
Proof. apply merge_sort_Permutation. Qed.

Lemma newest_first_sorted l : StronglySorted (not_before createdAt) (newest_first createdAt l).
Proof. apply (StronglySorted_merge_sort _). Qed.

Lemma newest_first_perm l : newest_first createdAt l ≡ₚ l.
Proof. apply merge_sort_Permutation. Qed.

End Sorting.

(** X19: creating a session and finding it again.  create-chat answers with
    a session id exactly when the generated id is not yet stored and the
    store performs the save; the id answered is the generated one, the
    session is stored with the current time, and a listing that follows
    returns it among all stored sessions, newest first.  When the id is in
    use or the store rejects the save, the answer is 500 and nothing is
    stored. *)
Theorem create_chat_outcomes env s :
  let r := create_chat env s in
  let sid := api_uuidv4 env in
  let new := mkChatSession sid (api_now env) in
  (∀ sid', r.1.1 = Returned (JsonSessionId sid') ↔
     sid' = sid ∧ (sid ∉ cs_sessionId <$> chatSessions s) ∧
     ChatSession_save_settles env = Resolves) ∧
  (sid ∉ cs_sessionId <$> chatSessions s → ChatSession_save_settles env = Resolves →
     r.1.2 = mkSite (world s) (chatSessions s ++ [new]) (users s) ∧
     ∀ env', ChatSession_find_settles env' = Resolves →
       ∃ l, (chat_sessions env' r.1.2).1.1 = Returned (JsonSessions l) ∧
            new ∈ l ∧ l ≡ₚ chatSessions s ++ [new] ∧
            StronglySorted (not_before cs_createdAt) l) ∧
  (sid ∈ cs_sessionId <$> chatSessions s ∨
   (∃ err, ChatSession_save_settles env = Rejects err) →
     r.1.1 = Returned (JsonError 500 "Could not create chat session") ∧ r.1.2 = s).
Proof.
  intros r sid new. subst r sid new. rewrite create_chat_run. cbn zeta.
  destruct (decide (api_uuidv4 env ∈ cs_sessionId <$> chatSessions s)) as [Hin|Hfresh].
  - cbn. split; [|split; [done|done]].
    intros sid'. split; [done|]. by intros (_ & ? & _).
  - destruct (ChatSession_save_settles env) as [|err]; cbn.
    + split; [|split].
      * intros sid'. split; [by intros [= <-]|by intros (-> & _)].
      * intros _ _. split; [done|]. intros env' Hfind.
        rewrite chat_sessions_run, Hfind. cbn [fst snd chatSessions].
        eexists. split; [done|].
        split; [|split; [apply newest_first_perm|apply newest_first_sorted]].
        rewrite newest_first_perm. apply elem_of_app. right. apply list_elem_of_here.
      * intros [?|[err ?]]; done.
    + split; [|split; [done|done]].
      intros sid'. split; [done|]. by intros (_ & _ & ?).
Qed.

Lemma filter_snoc_session sid (ms : list Message) m :
  filter (λ m, sessionId (data m) = sid) (ms ++ [m]) =
  filter (λ m, sessionId (data m) = sid) ms
  ++ (if decide (sessionId (data m) = sid) then [m] else []).
Proof. by rewrite filter_app. Qed.

(** X20: the history route and the chat pipeline.  The history of a session
    is the list of its stored messages, oldest first.  After a chatMessage
    event whose save was performed, the history of the session of the event
    is the history before plus the new message, with the fields of the event
    and the time of the save, and the history of every other session is
    unchanged.  After an event whose save was rejected every history is
    unchanged, although the message was broadcast to the room. *)
Theorem history_follows_the_saved_messages
    BASE_URL CLIENT_URL cenv socket ev env sid s :
  Message_find_settles env = Resolves →
  let s1 := site_after BASE_URL CLIENT_URL (ViaWorld (ChatMessage cenv socket ev)) s in
  ∃ before after,
    (get_messages env sid s).1.1 = Returned (JsonMessages before) ∧
    (get_messages env sid s1).1.1 = Returned (JsonMessages after) ∧
    before ≡ₚ filter (λ m, sessionId (data m) = sid) (messages (world s)) ∧
    StronglySorted (not_after createdAt) after ∧
    (Message_save_settles cenv = Resolves → sessionId ev = sid →
       after ≡ₚ before ++ [mkMessage ev (Date_now cenv)]) ∧
    (sessionId ev ≠ sid → after = before) ∧
    (∀ err, Message_save_settles cenv = Rejects err →
       after = before ∧
       broadcast ev (world s)
         ∈ trace_of (chatMessage_event BASE_URL cenv socket ev (world s))).
Proof.
  intros Hfind s1. subst s1. rewrite !get_messages_run, Hfind.
  cbn [site_after serve fst snd world].
  rewrite chatMessage_event_run. cbn [world_of fst snd messages].
  do 2 eexists. split; [done|]. split; [done|].
  split; [apply oldest_first_perm|]. split; [apply oldest_first_sorted|].
  unfold persist_store. split; [|split].
  - intros -> <-. rewrite filter_snoc_session, decide_True by done.
    by rewrite !oldest_first_perm.
  - intros Hother. destruct (Message_save_settles cenv); [|done].
    by rewrite filter_snoc_session, decide_False, app_nil_r.
  - intros err ->. split; [done|].
    unfold trace_of; cbn [snd]. apply elem_of_app. right. apply list_elem_of_here.
Qed.

Lemma history_witness :
  Message_find_settles api_ok = Resolves ∧
  let s1 := site_after base0 "http://localhost:3000"
              (ViaWorld (ChatMessage env_ok "A" hello)) site0 in
  ∃ before after,
    (get_messages api_ok "abc" site0).1.1 = Returned (JsonMessages before) ∧
    (get_messages api_ok "abc" s1).1.1 = Returned (JsonMessages after) ∧
    before ≡ₚ filter (λ m, sessionId (data m) = "abc") (messages (world site0)) ∧
    StronglySorted (not_after createdAt) after ∧
    (Message_save_settles env_ok = Resolves → sessionId hello = "abc" →
       after ≡ₚ before ++ [mkMessage hello (Date_now env_ok)]) ∧
    (sessionId hello ≠ "abc" → after = before) ∧
    (∀ err, Message_save_settles env_ok = Rejects err →
       after = before ∧
       broadcast hello (world site0)
         ∈ trace_of (chatMessage_event base0 env_ok "A" hello (world site0))).
Proof.
  split; [reflexivity|].
  exact (history_follows_the_saved_messages base0 "http://localhost:3000"
           env_ok "A" hello api_ok "abc" site0 eq_refl).
Defined.

Lemma users_have_sessions_more CLIENT_URL w w' cs added us :
  users_have_sessions CLIENT_URL (mkSite w cs us) →
  users_have_sessions CLIENT_URL (mkSite w' (cs ++ added) us).
Proof.
  intros Hinv u Hu. destruct (Hinv u Hu) as (c & Hc & Hlink).
  exists c. split; [|done]. cbn in *. apply elem_of_app. by left.
Qed.

(** One request: sessions are only ever added at the end, with an id that
    was not in use, and the users keep pointing at stored sessions. *)
Lemma site_after_step BASE_URL CLIENT_URL req s :
  NoDup (cs_sessionId <$> chatSessions s) →
  users_have_sessions CLIENT_URL s →
  let s' := site_after BASE_URL CLIENT_URL req s in
  (∃ added, chatSessions s' = chatSessions s ++ added) ∧
  NoDup (cs_sessionId <$> chatSessions s') ∧
  users_have_sessions CLIENT_URL s'.
Proof.
  intros Hnd Hinv s'. subst s'. destruct s as [w cs us]. cbn [chatSessions] in Hnd.
  assert (Hfresh : ∀ sid now, sid ∉ cs_sessionId <$> cs →
            NoDup (cs_sessionId <$> cs ++ [mkChatSession sid now])).
  { intros sid now Hsid. rewrite fmap_app. apply NoDup_app. split; [done|].
    split; [|apply NoDup_singleton].
    intros x Hx Hx'. apply list_elem_of_singleton in Hx'. by subst x. }
  assert (Hsame : ∀ w', (∃ added, cs = cs ++ added) ∧ NoDup (cs_sessionId <$> cs) ∧
                        users_have_sessions CLIENT_URL (mkSite w' cs us)).
  { intros w'. split; [exists []; by rewrite app_nil_r|]. split; [done|].
    rewrite <- (app_nil_r cs). by apply (users_have_sessions_more _ w). }
  destruct req as [[env|env|env sid|env body|env|env id]|r]; cbn [site_after route].
  - rewrite create_chat_run. cbn zeta. cbn [chatSessions].
    destruct (decide (api_uuidv4 env ∈ cs_sessionId <$> cs)); [apply Hsame|].
    destruct (ChatSession_save_settles env); [|apply Hsame]. cbn.
    split; [eauto|]. split; [by apply Hfresh|].
    by apply (users_have_sessions_more _ w).
  - rewrite chat_sessions_run. destruct (ChatSession_find_settles env); apply Hsame.
  - rewrite get_messages_run. destruct (Message_find_settles env); apply Hsame.
  - rewrite create_user_run. cbn zeta. cbn [chatSessions world users].
    destruct (decide (api_uuidv4 env ∈ cs_sessionId <$> cs)); [apply Hsame|].
    destruct (ChatSession_save_settles env); [|apply Hsame].
    assert (Hkept : users_have_sessions CLIENT_URL
              (mkSite w (cs ++ [mkChatSession (api_uuidv4 env) (api_now env)]) us))
      by by apply (users_have_sessions_more _ w).
    destruct (body_name body), (body_email body), (body_companyName body),
      (User_save_settles env); cbn;
      (split; [eauto|]; split; [by apply Hfresh|]); try done.
    intros u Hu. cbn in Hu. apply elem_of_app in Hu as [Hu|Hu].
    + by apply Hkept.
    + apply list_elem_of_singleton in Hu as ->.
      exists (mkChatSession (api_uuidv4 env) (api_now env)). split; [|done].
      cbn. apply elem_of_app. right. apply list_elem_of_here.
  - rewrite get_users_run. destruct (User_find_settles env); apply Hsame.
  - rewrite delete_user_run. destruct (User_delete_settles env); [|apply Hsame]. cbn.
    split; [exists []; by rewrite app_nil_r|]. split; [done|].
    intros u Hu. cbn in Hu. apply delete_by_id_subseteq in Hu. by apply Hinv.
  - cbn. apply Hsame.
Qed.

(** X21: users and their sessions over time.  On a server of
    src/unnamed/part_000, if every stored user's link is the chat page of a
    stored session and session ids are unique, the same holds after any
    sequence of requests to the routes, socket events and registrations; and
    no session is ever removed or changed: the sessions stored before are
    the first of those stored after, in the same order. *)
Theorem users_keep_their_sessions BASE_URL CLIENT_URL reqs s :
  NoDup (cs_sessionId <$> chatSessions s) →
  users_have_sessions CLIENT_URL s →
  let s' := site_after_all BASE_URL CLIENT_URL reqs s in
  NoDup (cs_sessionId <$> chatSessions s') ∧
  users_have_sessions CLIENT_URL s' ∧
  ∃ added, chatSessions s' = chatSessions s ++ added.
Proof.
  revert s. induction reqs as [|req reqs IH]; intros s Hnd Hinv; cbn [site_after_all].
  - split; [done|]. split; [done|]. exists []. by rewrite app_nil_r.
  - destruct (site_after_step BASE_URL CLIENT_URL req s Hnd Hinv)
      as ([added Hadded] & Hnd' & Hinv').
    destruct (IH _ Hnd' Hinv') as (Hnd'' & Hinv'' & [added' Hadded']).
    split; [done|]. split; [done|].
    exists (added ++ added'). by rewrite Hadded', Hadded, app_assoc.
Qed.

Lemma site0_users_have_sessions : users_have_sessions "http://localhost:3000" site0.
Proof.
  intros u Hu. apply list_elem_of_singleton in Hu as ->.
  exists (mkChatSession "abc" 10). split; [apply list_elem_of_here|reflexivity].
Qed.

Lemma users_keep_their_sessions_witness :
  NoDup (cs_sessionId <$> chatSessions site0) ∧
  users_have_sessions "http://localhost:3000" site0 ∧
  let reqs := [ ViaRoute (CreateUser api_ok nameless);
                ViaRoute (DeleteUser api_ok "u-1");
                ViaWorld (ChatMessage env_ok "A" hello) ] in
  let s' := site_after_all base0 "http://localhost:3000" reqs site0 in
  NoDup (cs_sessionId <$> chatSessions s') ∧
  users_have_sessions "http://localhost:3000" s' ∧
  ∃ added, chatSessions s' = chatSessions site0 ++ added.
Proof.
  assert (Hnd : NoDup (cs_sessionId <$> chatSessions site0)).
  { apply (bool_decide_unpack _). vm_compute. exact I. }
  split; [exact Hnd|]. split; [exact site0_users_have_sessions|].
  exact (users_keep_their_sessions base0 "http://localhost:3000" _ site0 Hnd
           site0_users_have_sessions).
Defined.
